(** * kklib: the reference-counted heap runtime of [kklib/include/kklib.h]

    A shallow embedding of the block header, the allocation functions, the
    reference-count fast paths, the reuse protocol, datatype singletons,
    vectors and the marker counter, together with the properties the
    specification states about them.

    Conventions of the model.
    - The platform is LP64: [size_t], [uintptr_t] and [uintx_t] are 64-bit
      unsigned words, [int32_t] is two's complement.  Machine integers are
      values of [Z] and every wrap-around is written out.
    - A pointer is the address of a block; the heap maps addresses to
      blocks ([gmap Z block_t]).  A block is its header and the words that
      follow it.
    - The C functions run in a state-and-failure monad over the heap and a
      trace of the calls that leave this header (allocator, the out-of-line
      routines of [refcount.c], [drop_box_t] of [box.h]).  What such a call
      does to the heap is a parameter ([externals]).
    - [assert_internal] and every access outside a block fail ([None]). *)

From stdpp Require Import gmap list.

Local Open Scope Z_scope.

(** ** Machine integers *)

Definition wrap (bits x : Z) : Z := x mod 2 ^ bits.

Definition u8 : Z → Z := wrap 8.
Definition u16 : Z → Z := wrap 16.
Definition u32 : Z → Z := wrap 32.
Definition u64 : Z → Z := wrap 64.

(** [size_t], [uintptr_t] and [uintx_t] on LP64. *)
Definition size_t : Z → Z := u64.
Definition uintptr_t : Z → Z := u64.

(** The cast [(int32_t)x] of a 32-bit value (two's complement). *)
Definition int32_t (x : Z) : Z :=
  let y := u32 x in if y <? 2 ^ 31 then y else y - 2 ^ 32.

Definition INT32_MAX : Z := 2 ^ 31 - 1.

(** A C condition is taken when its value is not zero. *)
Definition c_true (x : Z) : bool := negb (x =? 0).

(** ** Tags ([enum tag_e]) *)

Definition TAG_INVALID : Z := 0.
Definition TAG_MIN : Z := 1.
Definition TAG_MAX : Z := 65000.
Definition TAG_OPEN : Z := 65001.
Definition TAG_BOX : Z := 65002.
Definition TAG_REF : Z := 65003.
Definition TAG_FUNCTION : Z := 65004.
Definition TAG_BIGINT : Z := 65005.
Definition TAG_STRING_SMALL : Z := 65006.
Definition TAG_STRING : Z := 65007.
Definition TAG_BYTES : Z := 65008.
Definition TAG_VECTOR : Z := 65009.
Definition TAG_INT64 : Z := 65010.
Definition TAG_DOUBLE : Z := 65011.
Definition TAG_INT32 : Z := 65012.
Definition TAG_FLOAT : Z := 65013.
Definition TAG_CFUNPTR : Z := 65014.
Definition TAG_CPTR_RAW : Z := 65015.
Definition TAG_STRING_RAW : Z := 65016.
Definition TAG_BYTES_RAW : Z := 65017.
Definition TAG_LAST : Z := 65018.

(** The values of [tag_t]. *)
Definition is_tag (t : Z) : Prop := TAG_INVALID ≤ t ≤ TAG_LAST.

Definition tag_is_raw (tag : Z) : bool := TAG_CPTR_RAW <=? tag.

(** ** Headers and blocks *)

Record header_t := Header {
  scan_fsize : Z;      (* uint8_t *)
  thread_shared : Z;   (* uint8_t : 1 *)
  tag : Z;             (* uint16_t *)
  refcount : Z         (* uint32_t *)
}.

Definition SCAN_FSIZE_MAX : Z := 0xFF.

(** [HEADER(scan_fsize,tag)] and [HEADER_STATIC(scan_fsize,tag)]. *)
Definition HEADER (sf t : Z) : header_t := Header sf 0 t 0.
Definition HEADER_STATIC (sf t : Z) : header_t := Header sf 0 t 0xFF00.

(** The header read back from the 64-bit word that holds it on a
    little-endian machine: [scan_fsize] is byte 0, the [thread_shared] bit
    is the low bit of byte 1, [tag] is bytes 2-3 and [refcount] bytes 4-7. *)
Definition header_of_word (w : Z) : header_t :=
  {| scan_fsize := Z.land w 0xFF;
     thread_shared := Z.land (Z.shiftr w 8) 1;
     tag := Z.land (Z.shiftr w 16) 0xFFFF;
     refcount := Z.land (Z.shiftr w 32) 0xFFFFFFFF |}.

(** A block: its header and the words after it ([block_fields_t.fields]). *)
Record block_t := Block {
  header : header_t;
  fields : list Z
}.

Definition with_header (hd : header_t) (blk : block_t) : block_t :=
  {| header := hd; fields := fields blk |}.

Definition with_refcount (rc : Z) (blk : block_t) : block_t :=
  with_header {| scan_fsize := scan_fsize (header blk);
                 thread_shared := thread_shared (header blk);
                 tag := tag (header blk);
                 refcount := rc |} blk.

Definition with_field (i : nat) (v : Z) (blk : block_t) : block_t :=
  {| header := header blk; fields := <[i := v]> (fields blk) |}.

Definition sizeof_header_t : Z := 8.
Definition sizeof_box_t : Z := 8.
(** [sizeof(struct vector_large_s)]: header, [large_scan_fsize], [vec[1]]. *)
Definition sizeof_vector_large_s : Z := 24.

(** [reuse_null], the null pointer. *)
Definition reuse_null : Z := 0.

(** ** Calls that leave the header, and the state *)

Inductive event :=
  | EvMallocSmall (sz p : Z)      (* runtime_malloc_small(sz) returned p *)
  | EvMalloc (sz p : Z)           (* runtime_malloc(sz) returned p *)
  | EvDupBlockCheck (b rc : Z)    (* dup_block_check(b, rc) *)
  | EvBlockCheckFree (b rc : Z)   (* block_check_free(b, rc, ctx) *)
  | EvBlockCheckReuse (b rc : Z)  (* block_check_reuse(b, rc, ctx) *)
  | EvDropBox (v : Z).            (* drop_box_t(v, ctx) *)


Record state := State {
  heap : gmap Z block_t;
  calls : list event
}.

(** What the routines defined outside the header do to the heap. *)
Record externals := Externals {
  ext_malloc : Z → gmap Z block_t → Z;
  ext_uninit : Z;
  ext_dup_block_check : Z → Z → gmap Z block_t → Z * gmap Z block_t;
  ext_block_check_free : Z → Z → gmap Z block_t → gmap Z block_t;
  ext_block_check_reuse : Z → Z → gmap Z block_t → Z * gmap Z block_t;
  ext_drop_box_t : Z → gmap Z block_t → gmap Z block_t
}.

(** ** The monad *)

Definition M (A : Type) : Type := state → option (A * state).

#[export] Instance M_ret : MRet M := λ A x s, Some (x, s).
#[export] Instance M_bind : MBind M := λ A B f m s,
  match m s with
  | Some (x, s') => f x s'
  | None => None
  end.

Definition fail {A} : M A := λ _, None.

Definition assert_internal (c : bool) : M unit :=
  if c then mret tt else fail.

Definition emit (e : event) : M unit :=
  λ s, Some (tt, {| heap := heap s; calls := calls s ++ [e] |}).

Definition modify_heap (f : gmap Z block_t → gmap Z block_t) : M unit :=
  λ s, Some (tt, {| heap := f (heap s); calls := calls s |}).

(** A routine that returns a value and leaves a new heap. *)
Definition call_heap {A} (f : gmap Z block_t → A * gmap Z block_t) : M A :=
  λ s, let '(r, h) := f (heap s) in Some (r, {| heap := h; calls := calls s |}).

(** [*b] for a block pointer. *)
Definition load_block (b : Z) : M block_t :=
  λ s, match heap s !! b with
       | Some blk => Some (blk, s)
       | None => None
       end.

Definition store_block (b : Z) (blk : block_t) : M unit :=
  modify_heap (<[b := blk]>).

(** [b->header = hd]. *)
Definition store_header (b : Z) (hd : header_t) : M unit :=
  blk ← load_block b; store_block b (with_header hd blk).

(** [b->header.refcount = rc]. *)
Definition store_refcount (b rc : Z) : M unit :=
  blk ← load_block b; store_block b (with_refcount rc blk).

(** [((block_fields_t* )b)->fields[i] = v]. *)
Definition store_field (b : Z) (i : Z) (v : Z) : M unit :=
  blk ← load_block b;
  assert_internal ((0 <=? i) && (i <? Z.of_nat (length (fields blk))));;
  store_block b (with_field (Z.to_nat i) v blk).

(** [for (size_t i = 0; i < n; i++) body(i)], entered at [i] with [k]
    iterations to go. *)
Fixpoint for_loop (k : nat) (i : Z) (body : Z → M unit) : M unit :=
  match k with
  | O => mret tt
  | S k' => body i;; for_loop k' (i + 1) body
  end.

Definition for_upto (n : Z) (body : Z → M unit) : M unit :=
  for_loop (Z.to_nat n) 0 body.

(** ** Boxed values ([kklib/box.h]) *)

(** Modelled from the spec: [box_enum] of [kklib/box.h], a file outside
    these sources.  Boxing a small integer or enumeration "shifts left 1
    and sets low bit", in a [uintptr_t]. *)
Definition box_enum (u : Z) : Z :=
  Z.lor (uintptr_t (Z.shiftl (uintptr_t u) 1)) 1.

(** Modelled from the spec: [unbox_enum] of [kklib/box.h].  The inline
    value is "recoverable by an arithmetic unshift": the unsigned word is
    shifted right by one. *)
Definition unbox_enum (v : Z) : Z := Z.shiftr v 1.

(** The largest value [box_enum] keeps: one bit of the word is the mark. *)
Definition MAX_BOXED_ENUM : Z := 2 ^ 63 - 1.

(** [box_null]: the word [~UP(0)] that [define_static_function] stores with
    the remark "must be box_null". *)
Definition box_null : Z := 2 ^ 64 - 1.

(** ** The thread-local context *)

Record context_t := Context {
  yielding : Z;            (* uint8_t *)
  ctx_marker_unique : Z;   (* int32_t marker_unique *)
  thread_id : Z            (* uintptr_t *)
}.

(** [marker_unique]: the context is passed and returned explicitly.
<<
  int32_t m = ++ctx->marker_unique;
  if (m == INT32_MAX) ctx->marker_unique = 1;
  return m;
>> *)
Definition marker_unique (ctx : context_t) : Z * context_t :=
  let m := int32_t (ctx_marker_unique ctx + 1) in
  let ctx1 := {| yielding := yielding ctx; ctx_marker_unique := m;
                 thread_id := thread_id ctx |} in
  if m =? INT32_MAX
  then (m, {| yielding := yielding ctx1; ctx_marker_unique := 1;
              thread_id := thread_id ctx1 |})
  else (m, ctx1).

(** The markers handed out by [n] successive calls. *)
Fixpoint markers (n : nat) (ctx : context_t) : list Z :=
  match n with
  | O => []
  | S n' => let '(m, ctx') := marker_unique ctx in m :: markers n' ctx'
  end.

(** ** Datatypes: a pointer or a singleton in one word *)

Definition datatype_from_tag (t : Z) : Z :=
  Z.lor (uintptr_t (Z.shiftl (uintptr_t t) 2)) 1.

Definition datatype_from_ptr (p : Z) : Z := p.

Definition datatype_is_ptr (d : Z) : bool := Z.land d 1 =? 0.

Definition datatype_is_singleton (d : Z) : bool := Z.land d 1 =? 1.

(** ** The functions of the header *)

Section Kklib.

(** The routines of the other compilation units. *)
Variable E : externals.
(** [ARCH_LITTLE_ENDIAN] of [kklib/platform.h]. *)
Variable ARCH_LITTLE_ENDIAN : bool.
(** The address held by [extern vector_t vector_empty]. *)
Variable vector_empty : Z.

(** *** Block accessors *)

Definition block_tag (b : Z) : M Z :=
  blk ← load_block b; mret (tag (header blk)).

Definition block_has_tag (b t : Z) : M bool :=
  bt ← block_tag b; mret (bt =? t).

Definition block_field (b i : Z) : M Z :=
  blk ← load_block b;
  match fields blk !! Z.to_nat i with
  | Some v => mret v
  | None => fail
  end.

Definition block_scan_fsize (b : Z) : M Z :=
  blk ← load_block b;
  let sfsize := scan_fsize (header blk) in
  if negb (sfsize =? SCAN_FSIZE_MAX) then mret sfsize
  else
    large_scan_fsize ← block_field b 0;
    mret (unbox_enum large_scan_fsize).

Definition block_refcount (b : Z) : M Z :=
  blk ← load_block b; mret (refcount (header blk)).

Definition block_is_unique (b : Z) : M bool :=
  blk ← load_block b; mret (refcount (header blk) =? 0).

(** *** Allocation *)

(** The memory handed out by the allocator: a block of the whole words
    that fit in [sz] bytes after the header, holding no particular value. *)
Definition fresh_block (sz : Z) : block_t :=
  {| header := header_of_word (ext_uninit E);
     fields := replicate (Z.to_nat ((sz - sizeof_header_t) / sizeof_box_t))
                         (ext_uninit E) |}.

Definition runtime_malloc (sz : Z) : M Z :=
  λ s, let p := ext_malloc E sz (heap s) in
       Some (p, {| heap := <[p := fresh_block sz]> (heap s);
                   calls := calls s ++ [EvMalloc sz p] |}).

Definition runtime_malloc_small (sz : Z) : M Z :=
  λ s, let p := ext_malloc E sz (heap s) in
       Some (p, {| heap := <[p := fresh_block sz]> (heap s);
                   calls := calls s ++ [EvMallocSmall sz p] |}).

Definition block_init (b size sfsize t : Z) : M unit :=
  assert_internal (sfsize <? SCAN_FSIZE_MAX);;
  if ARCH_LITTLE_ENDIAN
  then (* *((uint64_t* )b) = ((uint64_t)scan_fsize | ((uint64_t)tag << 16)) *)
    store_header b
      (header_of_word (Z.lor (u64 sfsize) (u64 (Z.shiftl (u64 t) 16))))
  else
    store_header b {| scan_fsize := u8 sfsize; thread_shared := 0;
                      tag := u16 t; refcount := 0 |}.

Definition block_large_init (b size sfsize t : Z) : M unit :=
  store_header b {| scan_fsize := SCAN_FSIZE_MAX; thread_shared := 0;
                    tag := u16 t; refcount := 0 |};;
  store_field b 0 (box_enum sfsize).

Definition block_alloc_at (at_ size sfsize t : Z) : M Z :=
  assert_internal (sfsize <? SCAN_FSIZE_MAX);;
  b ← (if at_ =? reuse_null then runtime_malloc_small size
       else
         u ← block_is_unique at_;
         assert_internal u;;
         mret at_);
  block_init b size sfsize t;;
  mret b.

Definition block_alloc (size sfsize t : Z) : M Z :=
  assert_internal (sfsize <? SCAN_FSIZE_MAX);;
  b ← runtime_malloc_small size;
  block_init b size sfsize t;;
  mret b.

Definition block_alloc_any (size sfsize t : Z) : M Z :=
  assert_internal (sfsize <? SCAN_FSIZE_MAX);;
  b ← runtime_malloc size;
  block_init b size sfsize t;;
  mret b.

Definition block_large_alloc (size sfsize t : Z) : M Z :=
  b ← runtime_malloc (size_t (size + 1));
  block_large_init b size sfsize t;;
  mret b.

Definition _block_as_assert (b t : Z) : M Z :=
  bt ← block_tag b;
  assert_internal (bt =? t);;
  mret b.

(** *** Reference counting *)

Definition block_check_free (b rc : Z) : M unit :=
  emit (EvBlockCheckFree b rc);;
  modify_heap (ext_block_check_free E b rc).

Definition dup_block_check (b rc : Z) : M Z :=
  emit (EvDupBlockCheck b rc);;
  call_heap (ext_dup_block_check E b rc).

Definition block_check_reuse (b rc : Z) : M Z :=
  emit (EvBlockCheckReuse b rc);;
  call_heap (ext_block_check_reuse E b rc).

Definition drop_box_t (v : Z) : M unit :=
  emit (EvDropBox v);;
  modify_heap (ext_drop_box_t E v).

(**
<<
  const uint32_t rc = b->header.refcount;
  if (likely((int32_t)rc >= 0)) { b->header.refcount = rc+1; return b; }
  else { return dup_block_check(b, rc); }
>> *)
Definition dup_block (b : Z) : M Z :=
  blk ← load_block b;
  let rc := refcount (header blk) in
  if 0 <=? int32_t rc then
    store_refcount b (u32 (rc + 1));;
    mret b
  else dup_block_check b rc.

(**
<<
  const uint32_t rc = b->header.refcount;
  if ((int32_t)(rc > 0)) { b->header.refcount = rc-1; }
  else { block_check_free(b, rc, ctx); }
>>
    The cast applies to the result of the unsigned comparison [rc > 0]. *)
Definition drop_block (b : Z) : M unit :=
  blk ← load_block b;
  let rc := refcount (header blk) in
  if c_true (int32_t (Z.b2z (0 <? rc))) then
    store_refcount b (u32 (rc - 1))
  else block_check_free b rc.

Definition block_decref (b : Z) : M unit :=
  blk ← load_block b;
  let rc := refcount (header blk) in
  assert_internal (negb (rc =? 0));;
  if c_true (int32_t (Z.b2z (0 <? rc))) then
    store_refcount b (u32 (rc - 1))
  else
    assert_internal false;;
    block_check_free b rc.

(** *** Reuse *)

Definition drop_reuse_blockx (b : Z) : M Z :=
  blk ← load_block b;
  let rc := refcount (header blk) in
  if int32_t rc <=? 0 then block_check_reuse b rc
  else
    store_refcount b (u32 (rc - 1));;
    mret reuse_null.

Definition drop_reuse_block (b : Z) : M Z :=
  blk ← load_block b;
  let rc := refcount (header blk) in
  if int32_t rc =? 0 then
    sfsize ← block_scan_fsize b;
    for_upto sfsize (λ i, v ← block_field b i; drop_box_t v);;
    mret b
  else
    drop_block b;;
    mret reuse_null.

Definition drop_reuse_blockn (b sfsize : Z) : M Z :=
  blk ← load_block b;
  let rc := refcount (header blk) in
  if rc =? 0 then
    n ← block_scan_fsize b;
    assert_internal (n =? sfsize);;
    for_upto sfsize (λ i, v ← block_field b i; drop_box_t v);;
    mret b
  else if int32_t rc <? 0 then
    block_check_free b rc;;
    mret reuse_null
  else
    store_refcount b (u32 (rc - 1));;
    mret reuse_null.

(** *** Datatypes *)

Definition datatype_has_tag (d t : Z) : M bool :=
  if datatype_is_ptr d then
    bt ← block_tag d; mret (bt =? t)
  else mret (d =? datatype_from_tag t).

Definition dup_datatype (d : Z) : M Z :=
  if datatype_is_ptr d then dup_block d;; mret d else mret d.

Definition drop_datatype (d : Z) : M unit :=
  if datatype_is_ptr d then drop_block d else mret tt.

Definition drop_reuse_datatype (d sfsize : Z) : M Z :=
  if datatype_is_singleton d then mret reuse_null
  else drop_reuse_blockn d sfsize.

(** *** Vectors *)

Definition dup_vector_t (v : Z) : M Z := dup_block v.

Definition drop_vector_t (v : Z) : M unit := drop_block v.

(** [v->vec[i]] is the word after [large_scan_fsize]. *)
Definition vector_alloc (length def : Z) : M Z :=
  if length =? 0 then dup_vector_t vector_empty
  else
    v ← block_large_alloc
          (size_t (sizeof_vector_large_s + size_t ((length - 1) * sizeof_box_t)))
          (size_t (length + 1)) TAG_VECTOR;
    (if negb (def =? box_null)
     then for_upto length (λ i, store_field v (i + 1) def)
     else mret tt);;
    mret v.

Definition vector_len (v : Z) : M Z :=
  vl ← _block_as_assert v TAG_VECTOR;
  large_scan_fsize ← block_field vl 0;
  let len := size_t (unbox_enum large_scan_fsize - 1) in
  n ← block_scan_fsize v;
  assert_internal (size_t (len + 1) =? n);;
  assert_internal (negb (size_t (len + 1) =? 0));;
  mret len.

End Kklib.

(** ** The routines of [refcount.c] and [box.h], for running the model *)

(** The header of [kklib.h]: counts from [0x80000000] are those of
    thread-shared blocks, counts above [0xC0000000] are sticky. *)
Definition RC_SHARED : Z := 0x80000000.
Definition RC_STICKY : Z := 0xC0000000.

(** Modelled from the spec: [dup_block_check] of [refcount.c], which is not
    among the sources.  The slow path of duplicate "must distinguish
    thread-shared → atomic increment from sticky/overflowed → no-op"; it
    returns the block. *)
Definition spec_dup_block_check (b rc : Z) (h : gmap Z block_t)
  : Z * gmap Z block_t :=
  match h !! b with
  | Some blk =>
      if RC_STICKY <? refcount (header blk) then (b, h)
      else (b, <[b := with_refcount (u32 (refcount (header blk) + 1)) blk]> h)
  | None => (b, h)
  end.

(** A stand-in for [drop_box_t] of [box.h] when the model is run on a
    concrete heap: an inline value (bit 0 set) owns nothing; for a pointer
    one share of the block is given up, so a shared count goes down by one
    and a unique block leaves the heap.  Thread-shared and sticky counts
    are left alone. *)
Definition test_drop_box_t (v : Z) (h : gmap Z block_t) : gmap Z block_t :=
  if Z.land v 1 =? 1 then h
  else match h !! v with
       | Some blk =>
           let rc := refcount (header blk) in
           if rc =? 0 then delete v h
           else if rc <? RC_SHARED then <[v := with_refcount (rc - 1) blk]> h
           else h
       | None => h
       end.

(** A stand-in for [block_check_free]: sticky counts stay, a thread-shared
    count goes down by one, and a block whose count is zero leaves the
    heap. *)
Definition test_block_check_free (b rc : Z) (h : gmap Z block_t)
  : gmap Z block_t :=
  match h !! b with
  | Some blk =>
      let rc := refcount (header blk) in
      if rc =? 0 then delete b h
      else if RC_STICKY <? rc then h
      else <[b := with_refcount (rc - 1) blk]> h
  | None => h
  end.

(** An allocator that hands out the first 8-aligned address above every
    block in use. *)
Definition bump_malloc (sz : Z) (h : gmap Z block_t) : Z :=
  8 * (1 + map_fold (λ p _ top, Z.max (p / 8) top) 0 h).

(** The instance on which the model is run in the examples below. *)
Definition test_externals : externals :=
  {| ext_malloc := bump_malloc;
     ext_uninit := 0xDEADBEEF;
     ext_dup_block_check := spec_dup_block_check;
     ext_block_check_free := test_block_check_free;
     ext_block_check_reuse := λ _ _ h, (reuse_null, h);
     ext_drop_box_t := test_drop_box_t |}.

(** ** Statements about the state *)

(** A heap of one block, and nothing called yet. *)
Definition state_of (b : Z) (blk : block_t) : state :=
  {| heap := {[ b := blk ]}; calls := [] |}.

(** The block of the scenario of the specification: tag 500, two scanned
    fields, the boxed 7 and a pointer to a child at address 32. *)
Definition block_2 (rc : Z) : block_t :=
  {| header := {| scan_fsize := 2; thread_shared := 0; tag := 500;
                  refcount := rc |};
     fields := [box_enum 7; 32] |}.

(** The child of [block_2]: a boxed scalar block with no scanned field. *)
Definition block_child (rc : Z) : block_t :=
  {| header := {| scan_fsize := 0; thread_shared := 0; tag := TAG_INT64;
                  refcount := rc |};
     fields := [42] |}.

(** [block_2] at address 16 with count [rc], its child at address 32 with
    count [rc_child]. *)
Definition state_parent_child (rc rc_child : Z) : state :=
  {| heap := <[ 16 := block_2 rc ]> {[ 32 := block_child rc_child ]};
     calls := [] |}.

(** A block marked thread-shared, with one inline field. *)
Definition block_ts (rc : Z) : block_t :=
  {| header := {| scan_fsize := 1; thread_shared := 1; tag := TAG_REF;
                  refcount := rc |};
     fields := [box_enum 7] |}.

(** Duplicate, then drop. *)
Definition dup_then_drop (E : externals) (b : Z) : M unit :=
  dup_block E b;; drop_block E b.

Definition is_uint32 (x : Z) : Prop := 0 ≤ x < 2 ^ 32.

(** The block at [b] has just been initialised with tag [t]: its count is
    zero, it is not thread-shared, and [block_is_unique] and [block_tag]
    say so. *)
Definition initialised (b t : Z) (s : state) : Prop :=
  ∃ blk,
    heap s !! b = Some blk
    ∧ refcount (header blk) = 0
    ∧ thread_shared (header blk) = 0
    ∧ tag (header blk) = t
    ∧ block_is_unique b s = Some (true, s)
    ∧ block_tag b s = Some (t, s).

(** The allocation [m] returns when [pre] holds, and every block it
    returns is initialised with tag [t]. *)
Definition returns_initialised (pre : Prop) (m : M Z) (t : Z) (s : state)
  : Prop :=
  (pre → ∃ b s', m s = Some (b, s'))
  ∧ (∀ b s', m s = Some (b, s') → initialised b t s').

(** The block at [v] is a large block that holds a vector of length [n]:
    the inline scan size is the sentinel, the first field boxes [n+1] (and
    unboxes to it), [block_scan_fsize] answers [n+1] and [vector_len]
    answers [n]. *)
Definition is_vector_of (n v : Z) (s : state) : Prop :=
  ∃ blk,
    heap s !! v = Some blk
    ∧ scan_fsize (header blk) = SCAN_FSIZE_MAX
    ∧ fields blk !! 0%nat = Some (box_enum (n + 1))
    ∧ unbox_enum (box_enum (n + 1)) = n + 1
    ∧ block_scan_fsize v s = Some (n + 1, s)
    ∧ vector_len v s = Some (n, s).

(** [vector_alloc(n, def)] returns such a block. *)
Definition vector_alloc_large (E : externals) (vector_empty n def : Z)
    (s : state) : Prop :=
  ∃ v s', vector_alloc E vector_empty n def s = Some (v, s')
          ∧ is_vector_of n v s'.

(** An empty vector: a large block whose scan size counts the
    [large_scan_fsize] field alone, with the count of a static block. *)
Definition block_vector_empty : block_t :=
  {| header := HEADER_STATIC SCAN_FSIZE_MAX TAG_VECTOR;
     fields := [box_enum 1] |}.

(** What the model returns for [vector_alloc(2^63, box_null)] when the
    empty vector is the only block: a block of 17 bytes at address 16 whose
    first field is the word 3. *)
Definition state_huge_vector : state :=
  {| heap := <[ 16 := Block (Header SCAN_FSIZE_MAX 0 TAG_VECTOR 0) [3] ]>
               {[ 8 := block_vector_empty ]};
     calls := [EvMalloc 17 16] |}.

(** [sizeof(block_large_t)]: the header and [large_scan_fsize]. *)
Definition sizeof_block_large_t : Z := 16.

(** The heap after [drop_box_t] has been called on the values [vs], in
    this order, from the heap [h]. *)
Definition drops_heap (E : externals) (vs : list Z) (h : gmap Z block_t)
  : gmap Z block_t :=
  foldl (λ h' v, ext_drop_box_t E v h') h vs.

(** The state [s] with the count of the block at [b] set to [rc]. *)
Definition set_refcount (b rc : Z) (blk : block_t) (s : state) : state :=
  {| heap := <[b := with_refcount rc blk]> (heap s); calls := calls s |}.

(** ** More of the header: yielding, free, drop with a static count,
       reuse tokens, datatypes, references *)

(** [enum yield_kind_e]. *)
Definition YIELD_NONE : Z := 0.
Definition YIELD_NORMAL : Z := 1.
Definition YIELD_FINAL : Z := 2.

Definition _yielding (ctx : context_t) : bool :=
  negb (yielding ctx =? YIELD_NONE).

Definition yielding_non_final (ctx : context_t) : bool :=
  yielding ctx =? YIELD_NORMAL.

Definition yielding_final (ctx : context_t) : bool :=
  yielding ctx =? YIELD_FINAL.

(** [runtime_free(p)] is [free(p)]: nothing for the null pointer, the end
    of the block at [p] otherwise; freeing what is not a live block
    fails. *)
Definition runtime_free (p : Z) : M unit :=
  if p =? 0 then mret tt
  else load_block p;; modify_heap (delete p).

(** [sizeof(struct ref_s)]: the header and [value]. *)
Definition sizeof_ref_s : Z := 16.

(** [Unit] of [enum unit_e]. *)
Definition Unit : Z := 0.

(** [k] successive runs of [m], results dropped. *)
Fixpoint times {A} (k : nat) (m : M A) : M unit :=
  match k with
  | O => mret tt
  | S k' => m;; times k' m
  end.

Section KklibMore.

Variable E : externals.
Variable ARCH_LITTLE_ENDIAN : bool.

(**
<<
  const uint32_t rc = b->header.refcount;
  if (rc == 0) {
    assert_internal(scan_fsize == block_scan_fsize(b));
    for (size_t i = 0; i < scan_fsize; i++) { drop_box_t(block_field(b, i), ctx); }
    runtime_free(b);
  }
  else if ((int32_t)rc < 0) { block_check_free(b, rc, ctx); }
  else { b->header.refcount = rc-1; }
>> *)
Definition drop_blockn (b sfsize : Z) : M unit :=
  blk ← load_block b;
  let rc := refcount (header blk) in
  if rc =? 0 then
    n ← block_scan_fsize b;
    assert_internal (sfsize =? n);;
    for_upto sfsize (λ i, v ← block_field b i; drop_box_t E v);;
    runtime_free b
  else if int32_t rc <? 0 then block_check_free E b rc
  else store_refcount b (u32 (rc - 1)).

Definition drop_block_assert (b t : Z) : M unit :=
  bt ← block_tag b;
  assert_internal (bt =? t);;
  drop_block E b.

Definition dup_block_assert (b t : Z) : M Z :=
  bt ← block_tag b;
  assert_internal (bt =? t);;
  dup_block E b.

Definition drop_reuse_t (r : Z) : M unit :=
  if negb (r =? reuse_null) then
    u ← block_is_unique r;
    assert_internal u;;
    runtime_free r
  else mret tt.

Definition datatype_as_ptr (d : Z) : M Z :=
  assert_internal (datatype_is_ptr d);;
  mret d.

(** [datatype_is_ptr(d) && block_is_unique(d.ptr)]: the block is read only
    for a pointer. *)
Definition datatype_is_unique (d : Z) : M bool :=
  if datatype_is_ptr d then block_is_unique d else mret false.

Definition datatype_free (d : Z) : M unit :=
  if datatype_is_ptr d then runtime_free d else mret tt.

Definition datatype_decref (d : Z) : M unit :=
  if datatype_is_ptr d then block_decref E d else mret tt.

(** [block_alloc_as(struct ref_s, 1, TAG_REF, ctx)] is
    [block_alloc_at(reuse_null, sizeof(struct ref_s), 1, TAG_REF, ctx)];
    [r->value] is the first word after the header. *)
Definition ref_alloc (value : Z) : M Z :=
  r ← block_alloc_at E ARCH_LITTLE_ENDIAN reuse_null sizeof_ref_s 1 TAG_REF;
  store_field r 0 value;;
  mret r.

Definition ref_set (r value : Z) : M Z :=
  b ← block_field r 0;
  drop_box_t E b;;
  store_field r 0 value;;
  mret Unit.

Definition ref_swap (r value : Z) : M Z :=
  b ← block_field r 0;
  store_field r 0 value;;
  mret b.

End KklibMore.

(** [dup_block] [k] times, then [drop_block] [k] times. *)
Definition dup_drop_times (E : externals) (k : nat) (b : Z) : M unit :=
  times k (dup_block E b);; times k (drop_block E b).

(** A reference cell holding [v], with count [rc]. *)
Definition block_ref (rc v : Z) : block_t :=
  {| header := {| scan_fsize := 1; thread_shared := 0; tag := TAG_REF;
                  refcount := rc |};
     fields := [v] |}.

(** ** Running the monad *)

Lemma bind_Some {A B} (m : M A) (f : A → M B) (s s' : state) (x : A) :
  m s = Some (x, s') → (m ≫= f) s = f x s'.
Proof. intros H. unfold mbind, M_bind. by rewrite H. Qed.

Lemma bind_None {A B} (m : M A) (f : A → M B) (s : state) :
  m s = None → (m ≫= f) s = None.
Proof. intros H. unfold mbind, M_bind. by rewrite H. Qed.

Lemma load_block_Some (b : Z) (blk : block_t) (s : state) :
  heap s !! b = Some blk → load_block b s = Some (blk, s).
Proof. intros H. unfold load_block. by rewrite H. Qed.

Lemma store_refcount_Some (b rc : Z) (blk : block_t) (s : state) :
  heap s !! b = Some blk →
  store_refcount b rc s
  = Some (tt, {| heap := <[b := with_refcount rc blk]> (heap s);
                 calls := calls s |}).
Proof.
  intros H. unfold store_refcount.
  by rewrite (bind_Some _ _ _ _ _ (load_block_Some _ _ _ H)).
Qed.

Lemma store_header_Some (b : Z) (hd : header_t) (blk : block_t) (s : state) :
  heap s !! b = Some blk →
  store_header b hd s
  = Some (tt, {| heap := <[b := with_header hd blk]> (heap s);
                 calls := calls s |}).
Proof.
  intros H. unfold store_header.
  by rewrite (bind_Some _ _ _ _ _ (load_block_Some _ _ _ H)).
Qed.

Lemma store_field_Some (b i v : Z) (blk : block_t) (s : state) :
  heap s !! b = Some blk →
  0 ≤ i < Z.of_nat (length (fields blk)) →
  store_field b i v s
  = Some (tt, {| heap := <[b := with_field (Z.to_nat i) v blk]> (heap s);
                 calls := calls s |}).
Proof.
  intros H Hi. unfold store_field.
  rewrite (bind_Some _ _ _ _ _ (load_block_Some _ _ _ H)).
  assert (((0 <=? i) && (i <? Z.of_nat (length (fields blk)))) = true) as ->.
  { apply andb_true_iff. split; [apply Z.leb_le | apply Z.ltb_lt]; lia. }
  done.
Qed.

(** ** Machine-integer facts *)

Lemma u32_id (x : Z) : is_uint32 x → u32 x = x.
Proof. intros H. unfold u32, wrap. apply Z.mod_small. exact H. Qed.

Lemma int32_t_nonneg (x : Z) : is_uint32 x → 0 ≤ int32_t x ↔ x < 2 ^ 31.
Proof.
  intros H. unfold int32_t. rewrite (u32_id _ H). unfold is_uint32 in H.
  destruct (Z.ltb_spec x (2 ^ 31)); lia.
Qed.

Lemma int32_t_pos (x : Z) : is_uint32 x → 0 < int32_t x ↔ 0 < x < 2 ^ 31.
Proof.
  intros H. unfold int32_t. rewrite (u32_id _ H). unfold is_uint32 in H.
  destruct (Z.ltb_spec x (2 ^ 31)); lia.
Qed.

Lemma int32_t_small (x : Z) : 0 ≤ x < 2 ^ 31 → int32_t x = x.
Proof.
  intros H. unfold int32_t, u32, wrap. rewrite Z.mod_small by lia.
  destruct (Z.ltb_spec x (2 ^ 31)); lia.
Qed.

(** The test of [drop_block]: [(int32_t)(rc > 0)] is taken for every
    count but zero. *)
Lemma drop_test_nonzero (rc : Z) :
  c_true (int32_t (Z.b2z (0 <? rc))) = (0 <? rc).
Proof. by destruct (0 <? rc). Qed.

(** ** The fast paths of duplicate and drop *)

Section Refcount.
Variable E : externals.

Lemma dup_block_fast (b : Z) (blk : block_t) (s : state) :
  heap s !! b = Some blk →
  is_uint32 (refcount (header blk)) →
  0 ≤ int32_t (refcount (header blk)) →
  dup_block E b s
  = Some (b, set_refcount b (refcount (header blk) + 1) blk s).
Proof.
  intros Hb Hrc Hpos. unfold dup_block.
  rewrite (bind_Some _ _ _ _ _ (load_block_Some _ _ _ Hb)).
  apply Z.leb_le in Hpos as Hpos'. rewrite Hpos'.
  apply int32_t_nonneg in Hpos; [|done].
  rewrite (bind_Some _ _ _ _ _ (store_refcount_Some _ _ _ _ Hb)).
  rewrite u32_id; [done|]. unfold is_uint32 in *. lia.
Qed.

Lemma dup_block_slow (b : Z) (blk : block_t) (s : state) :
  heap s !! b = Some blk →
  int32_t (refcount (header blk)) < 0 →
  dup_block E b s = dup_block_check E b (refcount (header blk)) s.
Proof.
  intros Hb Hneg. unfold dup_block.
  rewrite (bind_Some _ _ _ _ _ (load_block_Some _ _ _ Hb)).
  by destruct (Z.leb_spec 0 (int32_t (refcount (header blk)))); [lia|].
Qed.

(** [drop_block] on any count but zero: the count is written back one
    lower and nothing is called. *)
Lemma drop_block_nonzero (b : Z) (blk : block_t) (s : state) :
  heap s !! b = Some blk →
  is_uint32 (refcount (header blk)) →
  refcount (header blk) ≠ 0 →
  drop_block E b s
  = Some (tt, set_refcount b (refcount (header blk) - 1) blk s).
Proof.
  intros Hb Hrc Hnz. unfold drop_block.
  rewrite (bind_Some _ _ _ _ _ (load_block_Some _ _ _ Hb)).
  rewrite drop_test_nonzero.
  unfold is_uint32 in Hrc.
  destruct (Z.ltb_spec 0 (refcount (header blk))); [|lia].
  rewrite (store_refcount_Some _ _ _ _ Hb).
  rewrite u32_id; [done|]. unfold is_uint32. lia.
Qed.

Lemma drop_block_zero (b : Z) (blk : block_t) (s : state) :
  heap s !! b = Some blk →
  refcount (header blk) = 0 →
  drop_block E b s = block_check_free E b 0 s.
Proof.
  intros Hb Hz. unfold drop_block.
  rewrite (bind_Some _ _ _ _ _ (load_block_Some _ _ _ Hb)).
  by rewrite Hz.
Qed.

End Refcount.

(** ** Duplicate: frame (C10) *)

(** C10.  For a block whose 32-bit count is non-negative as an [int32_t],
    [dup_block] returns the pointer it was given, writes the count back
    one higher, and leaves the tag, the scan size, the thread-shared flag,
    every field of the block, every other block and the trace as they
    were. *)
Theorem dup_block_frame (E : externals) (b : Z) (blk : block_t) (s : state) :
  heap s !! b = Some blk →
  is_uint32 (refcount (header blk)) →
  0 ≤ int32_t (refcount (header blk)) →
  ∃ s' blk',
    dup_block E b s = Some (b, s')
    ∧ heap s' !! b = Some blk'
    ∧ refcount (header blk') = refcount (header blk) + 1
    ∧ tag (header blk') = tag (header blk)
    ∧ scan_fsize (header blk') = scan_fsize (header blk)
    ∧ thread_shared (header blk') = thread_shared (header blk)
    ∧ fields blk' = fields blk
    ∧ (∀ p, p ≠ b → heap s' !! p = heap s !! p)
    ∧ calls s' = calls s.
Proof.
  intros Hb Hrc Hpos.
  eexists _, _. split; [by apply dup_block_fast|].
  simpl. split; [apply lookup_insert_eq|].
  repeat split; try done.
  intros p Hp. by apply lookup_insert_ne.
Qed.

Lemma dup_block_frame_witness :
  ∃ s',
    dup_block test_externals 16 (state_of 16 (block_2 0)) = Some (16, s')
    ∧ heap s' !! 16 = Some (with_refcount 1 (block_2 0))
    ∧ calls s' = [].
Proof.
  destruct (dup_block_frame test_externals 16 (block_2 0)
              (state_of 16 (block_2 0)))
    as (s' & blk' & Hrun & Hb & Hrc & Ht & Hsf & Hts & Hf & _ & Hc).
  - reflexivity.
  - unfold is_uint32. simpl. lia.
  - vm_compute. discriminate.
  - exists s'. split; [exact Hrun|]. split; [|exact Hc].
    rewrite Hb. f_equal.
    destruct blk' as [[sf ts t rc] fs]. simpl in *. by subst.
Defined.

(** ** Drop (C1) *)

(** C1.  The code at a thread-shared count: [drop_block] on a block whose
    count is [0x80000001] (top bit set) writes the count back one lower in
    place and calls nothing, [block_check_free] included.  The test
    [(int32_t)(rc > 0)] casts the outcome of the unsigned comparison, so
    it holds for every count but zero. *)
Theorem drop_block_top_bit_decrements (E : externals) :
  drop_block E 16 (state_of 16 (block_ts 0x80000001))
  = Some (tt, state_of 16 (block_ts 0x80000000)).
Proof.
  rewrite (drop_block_nonzero E 16 (block_ts 0x80000001)).
  - unfold set_refcount, state_of. simpl.
    by rewrite insert_singleton_eq.
  - apply lookup_singleton_eq.
  - unfold is_uint32. simpl. lia.
  - discriminate.
Qed.

(** Only the count zero reaches the slow path. *)
Lemma drop_block_calls_check_free_iff (E : externals) (b : Z) (blk : block_t)
    (s : state) :
  heap s !! b = Some blk →
  is_uint32 (refcount (header blk)) →
  (∃ s', drop_block E b s = Some (tt, s')
         ∧ calls s' = calls s ++ [EvBlockCheckFree b (refcount (header blk))])
  ↔ refcount (header blk) = 0.
Proof.
  intros Hb Hrc. split.
  - intros (s' & Hrun & Hc).
    destruct (decide (refcount (header blk) = 0)) as [|Hnz]; [done|].
    rewrite (drop_block_nonzero E b blk s Hb Hrc Hnz) in Hrun.
    inversion Hrun; subst s'. simpl in Hc.
    apply (f_equal length) in Hc. rewrite length_app in Hc. simpl in Hc. lia.
  - intros Hz. rewrite (drop_block_zero E b blk s Hb Hz).
    eexists. split; [reflexivity|]. simpl. by rewrite Hz.
Qed.

(** [block_decref] carries the same test: after its first assertion the
    count is not zero, so it always decrements in place. *)
Lemma block_decref_nonzero (E : externals) (b : Z) (blk : block_t) (s : state) :
  heap s !! b = Some blk →
  is_uint32 (refcount (header blk)) →
  refcount (header blk) ≠ 0 →
  block_decref E b s
  = Some (tt, set_refcount b (refcount (header blk) - 1) blk s).
Proof.
  intros Hb Hrc Hnz. unfold block_decref.
  rewrite (bind_Some _ _ _ _ _ (load_block_Some _ _ _ Hb)).
  destruct (Z.eqb_spec (refcount (header blk)) 0); [done|].
  rewrite (bind_Some _ _ _ s tt) by done.
  rewrite drop_test_nonzero. unfold is_uint32 in Hrc.
  destruct (Z.ltb_spec 0 (refcount (header blk))); [|lia].
  rewrite (store_refcount_Some _ _ _ _ Hb).
  rewrite u32_id; [done|]. unfold is_uint32. lia.
Qed.

(** The scenario of the specification: a block duplicated twice and
    dropped three times.  The first two drops call nothing; the third
    finds the count zero and calls [block_check_free]. *)
Example dup_twice_drop_thrice :
  (dup_block test_externals 16;; dup_block test_externals 16;;
   drop_block test_externals 16;; drop_block test_externals 16)
    (state_parent_child 0 1)
  = Some (tt, state_parent_child 0 1)
  ∧ (drop_block test_externals 16 (state_parent_child 0 1)
     ≫= λ r, mret (calls r.2)) = Some [EvBlockCheckFree 16 0].
Proof. split; vm_compute; reflexivity. Qed.

(** ** Drop for reuse on a shared block (C3) *)

(** C3.  For a block whose count is strictly positive as an [int32_t],
    [drop_reuse_blockn] and [drop_reuse_blockx] return [reuse_null] and
    leave the state with the count one lower and nothing else changed: the
    block stays in the heap with its fields, and nothing is called (no
    field is dropped, nothing is freed). *)
Theorem drop_reuse_shared (E : externals) (b n : Z) (blk : block_t)
    (s : state) :
  heap s !! b = Some blk →
  is_uint32 (refcount (header blk)) →
  0 < int32_t (refcount (header blk)) →
  drop_reuse_blockn E b n s
  = Some (reuse_null, set_refcount b (refcount (header blk) - 1) blk s)
  ∧ drop_reuse_blockx E b s
    = Some (reuse_null, set_refcount b (refcount (header blk) - 1) blk s).
Proof.
  intros Hb Hrc Hpos.
  assert (Hrange := proj1 (int32_t_pos _ Hrc) Hpos).
  assert (u32 (refcount (header blk) - 1) = refcount (header blk) - 1) as Hu.
  { apply u32_id. unfold is_uint32. lia. }
  split.
  - unfold drop_reuse_blockn.
    rewrite (bind_Some _ _ _ _ _ (load_block_Some _ _ _ Hb)).
    destruct (Z.eqb_spec (refcount (header blk)) 0); [lia|].
    destruct (Z.ltb_spec (int32_t (refcount (header blk))) 0); [lia|].
    rewrite (bind_Some _ _ _ _ _ (store_refcount_Some _ _ _ _ Hb)).
    by rewrite Hu.
  - unfold drop_reuse_blockx.
    rewrite (bind_Some _ _ _ _ _ (load_block_Some _ _ _ Hb)).
    destruct (Z.leb_spec (int32_t (refcount (header blk))) 0); [lia|].
    rewrite (bind_Some _ _ _ _ _ (store_refcount_Some _ _ _ _ Hb)).
    by rewrite Hu.
Qed.

Lemma drop_reuse_shared_witness :
  drop_reuse_blockn test_externals 16 2 (state_of 16 (block_2 2))
  = Some (reuse_null, state_of 16 (block_2 1))
  ∧ drop_reuse_blockx test_externals 16 (state_of 16 (block_2 2))
    = Some (reuse_null, state_of 16 (block_2 1)).
Proof.
  destruct (drop_reuse_shared test_externals 16 2 (block_2 2)
              (state_of 16 (block_2 2))) as [Hn Hx].
  - reflexivity.
  - unfold is_uint32. simpl. lia.
  - vm_compute. reflexivity.
  - rewrite Hn, Hx. unfold set_refcount, state_of. simpl.
    assert (<[16 := with_refcount (2 - 1) (block_2 2)]>
              ({[16 := block_2 2]} : gmap Z block_t) = {[16 := block_2 1]}) as ->.
    { apply insert_singleton_eq. }
    done.
Defined.

(** ** Duplicate then drop (C4) *)

Lemma with_refcount_id (blk : block_t) :
  with_refcount (refcount (header blk)) blk = blk.
Proof. by destruct blk as [[sf ts t rc] fs]. Qed.

Lemma with_refcount_twice (rc1 rc2 : Z) (blk : block_t) :
  with_refcount rc2 (with_refcount rc1 blk) = with_refcount rc2 blk.
Proof. done. Qed.

Lemma int32_t_neg (x : Z) : is_uint32 x → int32_t x < 0 ↔ 2 ^ 31 ≤ x.
Proof.
  intros H. unfold int32_t. rewrite (u32_id _ H). unfold is_uint32 in H.
  destruct (Z.ltb_spec x (2 ^ 31)); lia.
Qed.

Section DupDrop.
Variable E : externals.

(** On a count that is non-negative as an [int32_t] the pair is the
    identity on the state, whatever the routines of [refcount.c] do. *)
Lemma dup_then_drop_unshared (b : Z) (blk : block_t) (s : state) :
  heap s !! b = Some blk →
  is_uint32 (refcount (header blk)) →
  0 ≤ int32_t (refcount (header blk)) →
  dup_then_drop E b s = Some (tt, s).
Proof.
  intros Hb Hrc Hpos. unfold dup_then_drop.
  rewrite (bind_Some _ _ _ _ _ (dup_block_fast E b blk s Hb Hrc Hpos)).
  apply int32_t_nonneg in Hpos; [|done]. unfold is_uint32 in Hrc.
  rewrite (drop_block_nonzero E b
             (with_refcount (refcount (header blk) + 1) blk)).
  - unfold set_refcount. simpl. rewrite insert_insert_eq.
    replace (refcount (header blk) + 1 - 1) with (refcount (header blk)) by lia.
    rewrite with_refcount_twice, with_refcount_id, (insert_id _ _ _ Hb).
    by destruct s.
  - simpl. apply lookup_insert_eq.
  - simpl. unfold is_uint32. lia.
  - simpl. lia.
Qed.

Hypothesis dup_check_spec : ext_dup_block_check E = spec_dup_block_check.

Lemma dup_block_check_increments (b : Z) (blk : block_t) (s : state) :
  heap s !! b = Some blk →
  refcount (header blk) ≤ RC_STICKY →
  dup_block_check E b (refcount (header blk)) s
  = Some (b, {| heap := <[b := with_refcount
                                 (u32 (refcount (header blk) + 1)) blk]> (heap s);
                calls := calls s ++ [EvDupBlockCheck b (refcount (header blk))] |}).
Proof.
  intros Hb Hle. unfold dup_block_check, emit, call_heap, mbind, M_bind. simpl.
  rewrite dup_check_spec. unfold spec_dup_block_check. rewrite Hb.
  by destruct (Z.ltb_spec RC_STICKY (refcount (header blk))); [lia|].
Qed.

Lemma dup_block_check_sticky (b : Z) (blk : block_t) (s : state) :
  heap s !! b = Some blk →
  RC_STICKY < refcount (header blk) →
  dup_block_check E b (refcount (header blk)) s
  = Some (b, {| heap := heap s;
                calls := calls s ++ [EvDupBlockCheck b (refcount (header blk))] |}).
Proof.
  intros Hb Hlt. unfold dup_block_check, emit, call_heap, mbind, M_bind. simpl.
  rewrite dup_check_spec. unfold spec_dup_block_check. rewrite Hb.
  by destruct (Z.ltb_spec RC_STICKY (refcount (header blk))); [|lia].
Qed.

(** On a thread-shared count the pair leaves the heap as it was: the
    increment of [dup_block_check] is undone by the plain decrement of
    [drop_block]. *)
Lemma dup_then_drop_thread_shared (b : Z) (blk : block_t) (s : state) :
  heap s !! b = Some blk →
  RC_SHARED ≤ refcount (header blk) ≤ RC_STICKY →
  dup_then_drop E b s
  = Some (tt, {| heap := heap s;
                 calls := calls s ++ [EvDupBlockCheck b (refcount (header blk))] |}).
Proof.
  intros Hb [Hlo Hhi]. unfold RC_SHARED in Hlo. unfold dup_then_drop.
  assert (is_uint32 (refcount (header blk))) as Hrc.
  { unfold is_uint32, RC_STICKY in *. lia. }
  rewrite (bind_Some _ _ _
             {| heap := <[b := with_refcount
                                 (u32 (refcount (header blk) + 1)) blk]> (heap s);
                calls := calls s ++ [EvDupBlockCheck b (refcount (header blk))] |}
             b).
  2:{ rewrite (dup_block_slow E b blk s Hb); [by apply dup_block_check_increments|].
      apply int32_t_neg; [done|lia]. }
  rewrite u32_id by (unfold is_uint32, RC_STICKY in *; lia).
  rewrite (drop_block_nonzero E b
             (with_refcount (refcount (header blk) + 1) blk)).
  - unfold set_refcount. simpl. rewrite insert_insert_eq.
    replace (refcount (header blk) + 1 - 1) with (refcount (header blk)) by lia.
    by rewrite with_refcount_twice, with_refcount_id, (insert_id _ _ _ Hb).
  - simpl. apply lookup_insert_eq.
  - simpl. unfold is_uint32, RC_STICKY in *. lia.
  - simpl. lia.
Qed.

(** On a sticky count [dup_block_check] does nothing and [drop_block]
    still decrements: the count is one lower after the pair. *)
Lemma dup_then_drop_sticky (b : Z) (blk : block_t) (s : state) :
  heap s !! b = Some blk →
  RC_STICKY < refcount (header blk) < 2 ^ 32 →
  dup_then_drop E b s
  = Some (tt, {| heap := <[b := with_refcount (refcount (header blk) - 1) blk]>
                           (heap s);
                 calls := calls s ++ [EvDupBlockCheck b (refcount (header blk))] |}).
Proof.
  intros Hb [Hlo Hhi]. unfold RC_STICKY in Hlo. unfold dup_then_drop.
  assert (is_uint32 (refcount (header blk))) as Hrc.
  { unfold is_uint32. lia. }
  rewrite (bind_Some _ _ _
             {| heap := heap s;
                calls := calls s ++ [EvDupBlockCheck b (refcount (header blk))] |}
             b).
  2:{ rewrite (dup_block_slow E b blk s Hb); [by apply dup_block_check_sticky|].
      apply int32_t_neg; [done|lia]. }
  rewrite (drop_block_nonzero E b blk); [done|done|done|lia].
Qed.

End DupDrop.

(** C4.  The code at a sticky count: on a block whose count is
    [0xE0000000], [dup_block] goes to [dup_block_check], which leaves a
    sticky count alone, and [drop_block] then writes the count back one
    lower: after the pair the count is [0xDFFFFFFF], not what it was. *)
Theorem dup_then_drop_sticky_count_changes :
  dup_then_drop test_externals 16 (state_of 16 (block_ts 0xE0000000))
  = Some (tt, {| heap := {[ 16 := block_ts 0xDFFFFFFF ]};
                 calls := [EvDupBlockCheck 16 0xE0000000] |}).
Proof.
  rewrite (dup_then_drop_sticky test_externals eq_refl 16 (block_ts 0xE0000000)).
  - unfold state_of. simpl. by rewrite insert_singleton_eq.
  - apply lookup_singleton_eq.
  - simpl. unfold RC_STICKY. lia.
Qed.

(** ** Drop for reuse on a unique block (C2) *)

Lemma block_field_Some (b i v : Z) (blk : block_t) (s : state) :
  heap s !! b = Some blk →
  fields blk !! Z.to_nat i = Some v →
  block_field b i s = Some (v, s).
Proof.
  intros Hb Hv. unfold block_field.
  rewrite (bind_Some _ _ _ _ _ (load_block_Some _ _ _ Hb)). by rewrite Hv.
Qed.

Lemma drop_box_t_run (E : externals) (v : Z) (s : state) :
  drop_box_t E v s
  = Some (tt, {| heap := ext_drop_box_t E v (heap s);
                 calls := calls s ++ [EvDropBox v] |}).
Proof. done. Qed.

Section DropReuse.
Variable E : externals.
Variables (b : Z) (blk : block_t).

(** The loop of [drop_reuse_block] and [drop_reuse_blockn], entered at
    index [i] with [k] fields to go: it drops the fields [i], ..., [i+k-1]
    in this order, provided the block is still in place each time the
    loop reads a field from it, that is in each heap the run goes
    through. *)
Lemma drop_fields_loop (k : nat) :
  ∀ (i : Z) (s : state),
    0 ≤ i →
    (Z.to_nat i + k ≤ length (fields blk))%nat →
    (∀ j : nat, (j ≤ k)%nat →
       drops_heap E (take j (drop (Z.to_nat i) (fields blk))) (heap s) !! b
       = Some blk) →
    for_loop k i (λ j, v ← block_field b j; drop_box_t E v) s
    = Some (tt,
            {| heap := drops_heap E (take k (drop (Z.to_nat i) (fields blk)))
                         (heap s);
               calls := calls s
                        ++ map EvDropBox (take k (drop (Z.to_nat i) (fields blk))) |}).
Proof.
  induction k as [|k IH]; intros i s Hi Hlen Hrun.
  - simpl. rewrite app_nil_r. by destruct s.
  - destruct (lookup_lt_is_Some_2 (fields blk) (Z.to_nat i)) as [v Hv]; [lia|].
    assert (heap s !! b = Some blk) as Hb by (apply (Hrun 0%nat); lia).
    assert ((block_field b i ≫= λ v, drop_box_t E v) s
            = Some (tt, {| heap := ext_drop_box_t E v (heap s);
                           calls := calls s ++ [EvDropBox v] |})) as Hbody.
    { by rewrite (bind_Some _ _ _ _ _ (block_field_Some b i v blk s Hb Hv)). }
    cbn [for_loop]. rewrite (bind_Some _ _ _ _ _ Hbody).
    rewrite (IH (i + 1)); [| lia | lia |].
    + replace (Z.to_nat (i + 1)) with (S (Z.to_nat i)) by lia.
      rewrite (drop_S _ _ _ Hv). simpl. by rewrite <- app_assoc.
    + intros j Hj. specialize (Hrun (S j) ltac:(lia)).
      rewrite (drop_S _ _ _ Hv) in Hrun.
      replace (Z.to_nat (i + 1)) with (S (Z.to_nat i)) by lia.
      exact Hrun.
Qed.

(** C2.  For a block [b] whose count is zero and whose scan size is [N]
    (the [N] scanned fields lying inside the block, and the block still
    in place after each drop of the run), [drop_reuse_block] and
    [drop_reuse_blockn] with the static count [N] return [b] itself, which
    is not [reuse_null]; the calls they make are [drop_box_t] on the
    fields 0, ..., N-1, one call per field, the heap they leave is the one
    those drops leave, and [b] is still in it, unchanged. *)
Theorem drop_reuse_unique (N : Z) (s : state) :
  heap s !! reuse_null = None →
  heap s !! b = Some blk →
  refcount (header blk) = 0 →
  block_scan_fsize b s = Some (N, s) →
  N ≤ Z.of_nat (length (fields blk)) →
  (∀ k : nat, (k ≤ Z.to_nat N)%nat →
     drops_heap E (take k (fields blk)) (heap s) !! b = Some blk) →
  ∃ s',
    drop_reuse_block E b s = Some (b, s')
    ∧ drop_reuse_blockn E b N s = Some (b, s')
    ∧ b ≠ reuse_null
    ∧ calls s' = calls s ++ map EvDropBox (take (Z.to_nat N) (fields blk))
    ∧ heap s' = drops_heap E (take (Z.to_nat N) (fields blk)) (heap s)
    ∧ heap s' !! b = Some blk.
Proof.
  intros Hnull Hb Hrc Hscan HN Hframe.
  pose proof (drop_fields_loop (Z.to_nat N) 0 s) as Hrun.
  change (Z.to_nat 0) with 0%nat in Hrun. rewrite drop_0 in Hrun.
  specialize (Hrun ltac:(lia) ltac:(lia) Hframe).
  eexists. split; [|split; [|split; [|split; [|split]]]].
  - unfold drop_reuse_block.
    rewrite (bind_Some _ _ _ _ _ (load_block_Some _ _ _ Hb)).
    rewrite Hrc. cbv zeta. change (int32_t 0 =? 0) with true. cbv iota.
    rewrite (bind_Some _ _ _ _ _ Hscan).
    unfold for_upto. by rewrite (bind_Some _ _ _ _ _ Hrun).
  - unfold drop_reuse_blockn.
    rewrite (bind_Some _ _ _ _ _ (load_block_Some _ _ _ Hb)).
    rewrite Hrc. cbv zeta. change (0 =? 0) with true. cbv iota.
    rewrite (bind_Some _ _ _ _ _ Hscan).
    rewrite Z.eqb_refl.
    rewrite (bind_Some _ _ _ s tt) by done.
    unfold for_upto. by rewrite (bind_Some _ _ _ _ _ Hrun).
  - intros ->. congruence.
  - done.
  - done.
  - simpl. by apply Hframe.
Qed.

End DropReuse.

(** On the heap of [state_parent_child 0 1], dropping the two fields of
    the block at 16 never touches that block: the first is an inline
    value, the second points to the child at 32. *)
Lemma parent_child_run (k : nat) :
  (k ≤ Z.to_nat 2)%nat →
  drops_heap test_externals (take k (fields (block_2 0)))
    (heap (state_parent_child 0 1)) !! 16
  = Some (block_2 0).
Proof.
  intros Hk.
  destruct k as [|[|[|k]]]; [reflexivity|reflexivity|reflexivity|].
  change (Z.to_nat 2) with 2%nat in Hk. lia.
Qed.

Lemma drop_reuse_unique_witness :
  ∃ s',
    drop_reuse_block test_externals 16 (state_parent_child 0 1) = Some (16, s')
    ∧ drop_reuse_blockn test_externals 16 2 (state_parent_child 0 1)
      = Some (16, s')
    ∧ calls s' = [EvDropBox (box_enum 7); EvDropBox 32]
    ∧ heap s' !! 16 = Some (block_2 0)
    ∧ heap s' !! 32 = Some (block_child 0).
Proof.
  destruct (drop_reuse_unique test_externals 16 (block_2 0) 2
              (state_parent_child 0 1))
    as (s' & H1 & H2 & _ & Hc & Hh & Hb).
  - reflexivity.
  - reflexivity.
  - reflexivity.
  - reflexivity.
  - simpl. lia.
  - apply parent_child_run.
  - exists s'. split; [exact H1|]. split; [exact H2|].
    split; [exact Hc|]. split; [exact Hb|]. rewrite Hh. reflexivity.
Defined.

(** ** The marker counter (C8) *)

Lemma marker_unique_step (ctx : context_t) :
  0 ≤ ctx_marker_unique ctx ≤ INT32_MAX - 1 →
  (marker_unique ctx).1 = ctx_marker_unique ctx + 1
  ∧ ctx_marker_unique (marker_unique ctx).2
    = (if ctx_marker_unique ctx + 1 =? INT32_MAX then 1
       else ctx_marker_unique ctx + 1).
Proof.
  intros H. unfold marker_unique, INT32_MAX in *.
  rewrite int32_t_small by lia.
  by destruct (ctx_marker_unique ctx + 1 =? 2 ^ 31 - 1).
Qed.

Lemma marker_unique_keeps_range (ctx : context_t) :
  0 ≤ ctx_marker_unique ctx ≤ INT32_MAX - 1 →
  1 ≤ ctx_marker_unique (marker_unique ctx).2 ≤ INT32_MAX - 1.
Proof.
  intros H. destruct (marker_unique_step ctx H) as [_ ->].
  unfold INT32_MAX in *.
  destruct (Z.eqb_spec (ctx_marker_unique ctx + 1) (2 ^ 31 - 1)); lia.
Qed.

Lemma markers_positive (n : nat) :
  ∀ ctx, 0 ≤ ctx_marker_unique ctx ≤ INT32_MAX - 1 →
         Forall (λ m, 1 ≤ m ≤ INT32_MAX) (markers n ctx).
Proof.
  induction n as [|n IH]; intros ctx H; simpl; [constructor|].
  destruct (marker_unique ctx) as [m ctx'] eqn:Hm.
  pose proof (marker_unique_step ctx H) as [H1 _].
  pose proof (marker_unique_keeps_range ctx H) as H2.
  rewrite Hm in H1, H2. simpl in H1, H2.
  constructor; [lia|]. apply IH. lia.
Qed.

(** C8.  When the stored counter is in [0, INT32_MAX-1], [marker_unique]
    returns the counter plus one, a value from 1 to INT32_MAX and so never
    0; it stores 1 when that value is INT32_MAX and the value itself
    otherwise, so the stored counter is again in the range and every later
    call returns a marker that is at least 1. *)
Theorem marker_unique_never_zero (ctx : context_t) :
  0 ≤ ctx_marker_unique ctx ≤ INT32_MAX - 1 →
  (marker_unique ctx).1 = ctx_marker_unique ctx + 1
  ∧ 1 ≤ (marker_unique ctx).1
  ∧ (marker_unique ctx).1 ≠ 0
  ∧ ((marker_unique ctx).1 = INT32_MAX →
     ctx_marker_unique (marker_unique ctx).2 = 1)
  ∧ ((marker_unique ctx).1 ≠ INT32_MAX →
     ctx_marker_unique (marker_unique ctx).2 = (marker_unique ctx).1)
  ∧ 0 ≤ ctx_marker_unique (marker_unique ctx).2 ≤ INT32_MAX - 1
  ∧ ∀ n, Forall (λ m, 1 ≤ m ∧ m ≠ 0) (markers n (marker_unique ctx).2).
Proof.
  intros H.
  destruct (marker_unique_step ctx H) as [H1 H2].
  pose proof (marker_unique_keeps_range ctx H) as H3.
  split; [exact H1|]. split; [lia|]. split; [lia|].
  split; [|split; [|split]].
  - intros Hmax. rewrite H2. rewrite <- H1.
    by rewrite (proj2 (Z.eqb_eq _ _) Hmax).
  - intros Hne. rewrite H2. rewrite <- H1.
    by destruct (Z.eqb_spec (marker_unique ctx).1 INT32_MAX).
  - lia.
  - intros n.
    eapply Forall_impl; [apply markers_positive; lia|].
    simpl. intros m Hm. lia.
Qed.

Lemma marker_unique_never_zero_witness :
  (marker_unique (Context 0 (INT32_MAX - 1) 1)).1 = INT32_MAX
  ∧ ctx_marker_unique (marker_unique (Context 0 (INT32_MAX - 1) 1)).2 = 1
  ∧ markers 3 (marker_unique (Context 0 (INT32_MAX - 1) 1)).2 = [2; 3; 4].
Proof.
  destruct (marker_unique_never_zero (Context 0 (INT32_MAX - 1) 1))
    as (H1 & _ & _ & H4 & _).
  - simpl. unfold INT32_MAX. lia.
  - split; [exact H1|]. split; [apply H4; exact H1|]. reflexivity.
Defined.

(** ** Datatype singletons (C6) *)

Lemma lor_disjoint_add (a b : Z) : Z.land a b = 0 → Z.lor a b = a + b.
Proof.
  intros H. rewrite <- (Z.lxor_lor _ _ H). symmetry. by apply Z.add_nocarry_lxor.
Qed.

Lemma land_1_mod (a : Z) : Z.land a 1 = a mod 2.
Proof. change 1 with (Z.ones 1). by rewrite Z.land_ones. Qed.

Lemma lor_1_even (a : Z) : a mod 2 = 0 → Z.lor a 1 = a + 1.
Proof. intros H. apply lor_disjoint_add. by rewrite land_1_mod. Qed.

(** The singleton of [t] is [4*t + 1] in a 64-bit word. *)
Lemma datatype_from_tag_arith (t : Z) :
  datatype_from_tag t = (4 * t) mod 2 ^ 64 + 1.
Proof.
  unfold datatype_from_tag, uintptr_t, u64, wrap.
  rewrite Z.shiftl_mul_pow2 by lia.
  rewrite Z.mul_mod_idemp_l by lia.
  replace (t * 2 ^ 2) with (4 * t) by lia.
  apply lor_1_even.
  change (2 ^ 64) with 18446744073709551616.
  Z.div_mod_to_equations. lia.
Qed.

Lemma datatype_from_tag_is_singleton (t : Z) :
  datatype_is_ptr (datatype_from_tag t) = false
  ∧ datatype_is_singleton (datatype_from_tag t) = true.
Proof.
  unfold datatype_is_ptr, datatype_is_singleton.
  rewrite land_1_mod, datatype_from_tag_arith.
  assert (((4 * t) mod 2 ^ 64 + 1) mod 2 = 1) as ->; [|done].
  change (2 ^ 64) with 18446744073709551616.
  Z.div_mod_to_equations. lia.
Qed.

(** Singletons of different [tag_t] values ([int]s) differ. *)
Lemma datatype_from_tag_inj (t t2 : Z) :
  - 2 ^ 31 ≤ t < 2 ^ 31 → - 2 ^ 31 ≤ t2 < 2 ^ 31 →
  datatype_from_tag t = datatype_from_tag t2 → t = t2.
Proof.
  intros Ht Ht2. rewrite !datatype_from_tag_arith.
  change (2 ^ 64) with 18446744073709551616.
  change (2 ^ 31) with 2147483648 in *.
  Z.div_mod_to_equations. lia.
Qed.

(** C6.  For a tag [t] of the constructor range [TAG_MIN..TAG_MAX],
    [datatype_from_tag t] is the word [(t << 2) | 1]; [datatype_has_tag]
    answers true for [t] and false for every other [tag_t] value [t2],
    without reading the heap. *)
Theorem datatype_singleton_has_tag (t t2 : Z) (s : state) :
  TAG_MIN ≤ t ≤ TAG_MAX →
  - 2 ^ 31 ≤ t2 < 2 ^ 31 →
  datatype_from_tag t = Z.lor (Z.shiftl t 2) 1
  ∧ datatype_has_tag (datatype_from_tag t) t s = Some (true, s)
  ∧ (t2 ≠ t → datatype_has_tag (datatype_from_tag t) t2 s = Some (false, s)).
Proof.
  intros Ht Ht2. unfold TAG_MIN, TAG_MAX in Ht.
  destruct (datatype_from_tag_is_singleton t) as [Hptr _].
  split; [|split].
  - unfold datatype_from_tag, uintptr_t, u64, wrap.
    rewrite (Z.mod_small t) by lia.
    rewrite Z.shiftl_mul_pow2 by lia.
    by rewrite Z.mod_small by lia.
  - unfold datatype_has_tag. rewrite Hptr. by rewrite Z.eqb_refl.
  - intros Hne. unfold datatype_has_tag. rewrite Hptr.
    destruct (Z.eqb_spec (datatype_from_tag t) (datatype_from_tag t2)) as [Heq|];
      [|done].
    exfalso. apply Hne. symmetry.
    apply datatype_from_tag_inj; [lia|done|done].
Qed.

Lemma datatype_singleton_has_tag_witness :
  datatype_from_tag 500 = 2001
  ∧ datatype_has_tag (datatype_from_tag 500) 500 (state_of 16 (block_2 0))
    = Some (true, state_of 16 (block_2 0))
  ∧ datatype_has_tag (datatype_from_tag 500) TAG_VECTOR
      (state_of 16 (block_2 0))
    = Some (false, state_of 16 (block_2 0)).
Proof.
  destruct (datatype_singleton_has_tag 500 TAG_VECTOR (state_of 16 (block_2 0)))
    as (H1 & H2 & H3).
  - unfold TAG_MIN, TAG_MAX. lia.
  - unfold TAG_VECTOR. lia.
  - split; [by rewrite H1|]. split; [exact H2|]. apply H3. discriminate.
Defined.

(** ** Allocation initialises the header (C9) *)

Lemma land_low_shiftl (a b k : Z) :
  0 ≤ k → 0 ≤ a < 2 ^ k → Z.land a (Z.shiftl b k) = 0.
Proof.
  intros Hk Ha. apply Z.bits_inj'. intros n Hn.
  rewrite Z.land_spec, Z.bits_0.
  destruct (Z.lt_ge_cases n k) as [Hlt|Hge].
  - rewrite (Z.shiftl_spec_low _ _ _ Hlt). apply andb_false_r.
  - destruct (Z.eq_dec a 0) as [->|Hnz]; [by rewrite Z.bits_0|].
    rewrite Z.bits_above_log2; [done|lia|].
    assert (Z.log2 a < k); [|lia]. apply Z.log2_lt_pow2; lia.
Qed.

(** The word stored by the little-endian [block_init], read back. *)
Lemma header_of_init_word (sf t : Z) :
  0 ≤ sf < SCAN_FSIZE_MAX → 0 ≤ t < 2 ^ 16 →
  header_of_word (Z.lor (u64 sf) (u64 (Z.shiftl (u64 t) 16)))
  = {| scan_fsize := sf; thread_shared := 0; tag := t; refcount := 0 |}.
Proof.
  intros Hsf Ht. unfold SCAN_FSIZE_MAX in Hsf.
  unfold u64, wrap. rewrite (Z.mod_small sf), (Z.mod_small t) by lia.
  rewrite (Z.mod_small (Z.shiftl t 16)) by (rewrite Z.shiftl_mul_pow2; lia).
  rewrite lor_disjoint_add by (apply land_low_shiftl; lia).
  rewrite Z.shiftl_mul_pow2 by lia.
  unfold header_of_word.
  rewrite !Z.shiftr_div_pow2 by lia.
  change 0xFF with (Z.ones 8). change 1 with (Z.ones 1) at 1.
  change 0xFFFF with (Z.ones 16). change 0xFFFFFFFF with (Z.ones 32).
  rewrite !Z.land_ones by lia.
  change (2 ^ 16) with 65536 in *. change (2 ^ 8) with 256.
  change (2 ^ 32) with 4294967296. change (2 ^ 1) with 2.
  f_equal; Z.div_mod_to_equations; lia.
Qed.

Lemma u16_tag (t : Z) : is_tag t → u16 t = t.
Proof.
  unfold is_tag, TAG_INVALID, TAG_LAST, u16, wrap. intros H.
  apply Z.mod_small. lia.
Qed.

Lemma initialised_insert (b t : Z) (sf : Z) (fs : list Z) (h : gmap Z block_t)
    (c : list event) :
  initialised b t
    {| heap := <[b := Block (Header sf 0 t 0) fs]> h; calls := c |}.
Proof.
  set (s0 := {| heap := <[b := Block (Header sf 0 t 0) fs]> h; calls := c |}).
  assert (heap s0 !! b = Some (Block (Header sf 0 t 0) fs)) as Hb
    by apply lookup_insert_eq.
  exists (Block (Header sf 0 t 0) fs).
  repeat split; try done.
  - unfold block_is_unique.
    by rewrite (bind_Some _ _ _ _ _ (load_block_Some _ _ _ Hb)).
  - unfold block_tag.
    by rewrite (bind_Some _ _ _ _ _ (load_block_Some _ _ _ Hb)).
Qed.

Section Allocation.
Variable E : externals.
Variable ARCH_LITTLE_ENDIAN : bool.

Lemma block_init_run (b size sf t : Z) (blk : block_t) (s : state) :
  heap s !! b = Some blk →
  0 ≤ sf < SCAN_FSIZE_MAX → is_tag t →
  block_init ARCH_LITTLE_ENDIAN b size sf t s
  = Some (tt, {| heap := <[b := Block (Header sf 0 t 0) (fields blk)]> (heap s);
                 calls := calls s |}).
Proof.
  intros Hb Hsf Ht. unfold block_init.
  assert ((sf <? SCAN_FSIZE_MAX) = true) as -> by (apply Z.ltb_lt; lia).
  rewrite (bind_Some _ _ _ s tt) by done.
  assert (0 ≤ t < 2 ^ 16) as Ht16.
  { unfold is_tag, TAG_INVALID, TAG_LAST in Ht. lia. }
  destruct ARCH_LITTLE_ENDIAN.
  - rewrite (store_header_Some _ _ _ _ Hb).
    by rewrite (header_of_init_word _ _ Hsf Ht16).
  - rewrite (store_header_Some _ _ _ _ Hb).
    rewrite (u16_tag _ Ht).
    unfold u8, wrap. rewrite Z.mod_small; [done|].
    unfold SCAN_FSIZE_MAX in Hsf. lia.
Qed.

(** [block_alloc] and [block_alloc_at] without storage: one call of
    [runtime_malloc_small], then [block_init]. *)
Lemma block_alloc_run (size sf t : Z) (s : state) :
  0 ≤ sf < SCAN_FSIZE_MAX → is_tag t →
  let p := ext_malloc E size (heap s) in
  let s' := {| heap := <[p := Block (Header sf 0 t 0)
                                    (fields (fresh_block E size))]> (heap s);
               calls := calls s ++ [EvMallocSmall size p] |} in
  block_alloc E ARCH_LITTLE_ENDIAN size sf t s = Some (p, s')
  ∧ block_alloc_at E ARCH_LITTLE_ENDIAN reuse_null size sf t s = Some (p, s').
Proof.
  intros Hsf Ht p s'.
  assert ((sf <? SCAN_FSIZE_MAX) = true) as Hlt by (apply Z.ltb_lt; lia).
  assert (runtime_malloc_small E size s
          = Some (p, {| heap := <[p := fresh_block E size]> (heap s);
                        calls := calls s ++ [EvMallocSmall size p] |})) as Hm
    by done.
  assert (block_init ARCH_LITTLE_ENDIAN p size sf t
            {| heap := <[p := fresh_block E size]> (heap s);
               calls := calls s ++ [EvMallocSmall size p] |}
          = Some (tt, s')) as Hi.
  { rewrite (block_init_run p size sf t (fresh_block E size)); [|simpl|done|done].
    - subst s'. simpl. by rewrite insert_insert_eq.
    - apply lookup_insert_eq. }
  split.
  - unfold block_alloc. rewrite Hlt.
    rewrite (bind_Some _ _ _ s tt) by done.
    rewrite (bind_Some _ _ _ _ _ Hm).
    by rewrite (bind_Some _ _ _ _ _ Hi).
  - unfold block_alloc_at. rewrite Hlt.
    rewrite (bind_Some _ _ _ s tt) by done.
    change (reuse_null =? reuse_null) with true. cbv iota.
    rewrite (bind_Some _ _ _ _ _ Hm).
    by rewrite (bind_Some _ _ _ _ _ Hi).
Qed.

Lemma block_alloc_any_run (size sf t : Z) (s : state) :
  0 ≤ sf < SCAN_FSIZE_MAX → is_tag t →
  let p := ext_malloc E size (heap s) in
  block_alloc_any E ARCH_LITTLE_ENDIAN size sf t s
  = Some (p, {| heap := <[p := Block (Header sf 0 t 0)
                                     (fields (fresh_block E size))]> (heap s);
                calls := calls s ++ [EvMalloc size p] |}).
Proof.
  intros Hsf Ht p.
  assert ((sf <? SCAN_FSIZE_MAX) = true) as Hlt by (apply Z.ltb_lt; lia).
  assert (runtime_malloc E size s
          = Some (p, {| heap := <[p := fresh_block E size]> (heap s);
                        calls := calls s ++ [EvMalloc size p] |})) as Hm
    by done.
  unfold block_alloc_any. rewrite Hlt.
  rewrite (bind_Some _ _ _ s tt) by done.
  rewrite (bind_Some _ _ _ _ _ Hm).
  rewrite (bind_Some _ _ _
             {| heap := <[p := Block (Header sf 0 t 0)
                                     (fields (fresh_block E size))]> (heap s);
                calls := calls s ++ [EvMalloc size p] |} tt); [done|].
  rewrite (block_init_run p size sf t (fresh_block E size)); [|simpl|done|done].
  - simpl. by rewrite insert_insert_eq.
  - apply lookup_insert_eq.
Qed.

(** [block_alloc_at] on storage the caller holds uniquely: nothing is
    called, the header is written in place. *)
Lemma block_alloc_at_reuse_run (at_ size sf t : Z) (blk : block_t) (s : state) :
  at_ ≠ reuse_null →
  heap s !! at_ = Some blk →
  refcount (header blk) = 0 →
  0 ≤ sf < SCAN_FSIZE_MAX → is_tag t →
  block_alloc_at E ARCH_LITTLE_ENDIAN at_ size sf t s
  = Some (at_, {| heap := <[at_ := Block (Header sf 0 t 0) (fields blk)]> (heap s);
                  calls := calls s |}).
Proof.
  intros Hnn Hb Hrc Hsf Ht.
  assert ((sf <? SCAN_FSIZE_MAX) = true) as Hlt by (apply Z.ltb_lt; lia).
  unfold block_alloc_at. rewrite Hlt.
  rewrite (bind_Some _ _ _ s tt) by done.
  destruct (Z.eqb_spec at_ reuse_null); [done|].
  rewrite (bind_Some _ _ _ s at_).
  - by rewrite (bind_Some _ _ _ _ _ (block_init_run at_ size sf t blk s Hb Hsf Ht)).
  - unfold block_is_unique.
    rewrite (bind_Some _ _ _ _ _ (bind_Some _ _ _ _ _ (load_block_Some _ _ _ Hb))).
    by rewrite Hrc.
Qed.

Lemma fresh_block_length (sz : Z) :
  length (fields (fresh_block E sz))
  = Z.to_nat ((sz - sizeof_header_t) / sizeof_box_t).
Proof. unfold fresh_block. simpl. apply length_replicate. Qed.

(** [block_large_alloc]: one call of [runtime_malloc] for one byte more,
    the large header, and the boxed scan size in the first field. *)
Lemma block_large_alloc_run (size sf t : Z) (s : state) :
  sizeof_block_large_t ≤ size_t (size + 1) → is_tag t →
  let p := ext_malloc E (size_t (size + 1)) (heap s) in
  block_large_alloc E size sf t s
  = Some (p, {| heap := <[p := Block (Header SCAN_FSIZE_MAX 0 t 0)
                                     (<[0%nat := box_enum sf]>
                                        (fields (fresh_block E (size_t (size + 1)))))]>
                          (heap s);
                calls := calls s ++ [EvMalloc (size_t (size + 1)) p] |}).
Proof.
  intros Hroom Ht p. unfold sizeof_block_large_t in Hroom.
  set (sz := size_t (size + 1)) in *.
  set (s1 := {| heap := <[p := fresh_block E sz]> (heap s);
                calls := calls s ++ [EvMalloc sz p] |}).
  assert (runtime_malloc E sz s = Some (p, s1)) as Hm by done.
  set (blk1 := with_header (Header SCAN_FSIZE_MAX 0 (u16 t) 0) (fresh_block E sz)).
  set (s2 := {| heap := <[p := blk1]> (heap s1); calls := calls s1 |}).
  assert (store_header p (Header SCAN_FSIZE_MAX 0 (u16 t) 0) s1 = Some (tt, s2))
    as Hh.
  { apply store_header_Some. apply lookup_insert_eq. }
  assert (store_field p 0 (box_enum sf) s2
          = Some (tt, {| heap := <[p := with_field 0 (box_enum sf) blk1]> (heap s2);
                         calls := calls s2 |})) as Hf.
  { apply store_field_Some; [apply lookup_insert_eq|].
    subst blk1. simpl. rewrite length_replicate.
    unfold sizeof_header_t, sizeof_box_t.
    assert (1 ≤ (sz - 8) / 8); [|lia].
    apply Z.div_le_lower_bound; lia. }
  assert (block_large_init p size sf t s1
          = Some (tt, {| heap := <[p := with_field 0 (box_enum sf) blk1]> (heap s2);
                         calls := calls s2 |})) as Hinit.
  { unfold block_large_init. by rewrite (bind_Some _ _ _ _ _ Hh). }
  unfold block_large_alloc. fold sz.
  rewrite (bind_Some _ _ _ _ _ Hm).
  rewrite (bind_Some _ _ _ _ _ Hinit).
  subst s2 s1 blk1. simpl. rewrite !insert_insert_eq.
  unfold with_field, with_header. simpl.
  by rewrite (u16_tag _ Ht).
Qed.

Lemma block_large_alloc_no_room (size sf t : Z) (s : state) :
  ¬ sizeof_block_large_t ≤ size_t (size + 1) →
  block_large_alloc E size sf t s = None.
Proof.
  intros Hroom. unfold sizeof_block_large_t in Hroom.
  set (p := ext_malloc E (size_t (size + 1)) (heap s)).
  set (sz := size_t (size + 1)) in *.
  set (s1 := {| heap := <[p := fresh_block E sz]> (heap s);
                calls := calls s ++ [EvMalloc sz p] |}).
  assert (runtime_malloc E sz s = Some (p, s1)) as Hm by done.
  set (blk1 := with_header (Header SCAN_FSIZE_MAX 0 (u16 t) 0) (fresh_block E sz)).
  set (s2 := {| heap := <[p := blk1]> (heap s1); calls := calls s1 |}).
  assert (store_header p (Header SCAN_FSIZE_MAX 0 (u16 t) 0) s1 = Some (tt, s2))
    as Hh.
  { apply store_header_Some. apply lookup_insert_eq. }
  assert (heap s2 !! p = Some blk1) as Hb by apply lookup_insert_eq.
  assert (store_field p 0 (box_enum sf) s2 = None) as Hf.
  { unfold store_field.
    rewrite (bind_Some _ _ _ _ _ (load_block_Some _ _ _ Hb)).
    assert (length (fields blk1) = 0%nat) as ->; [|done].
    subst blk1. simpl. rewrite length_replicate.
    unfold sizeof_header_t, sizeof_box_t.
    assert ((sz - 8) / 8 ≤ 0); [|lia].
    assert ((sz - 8) / 8 < 1); [|lia].
    apply Z.div_lt_upper_bound; lia. }
  assert (block_large_init p size sf t s1 = None) as Hinit.
  { unfold block_large_init. by rewrite (bind_Some _ _ _ _ _ Hh). }
  unfold block_large_alloc. fold sz.
  rewrite (bind_Some _ _ _ _ _ Hm).
  by rewrite (bind_None _ _ _ Hinit).
Qed.

End Allocation.

Lemma returns_initialised_intro (pre : Prop) (m : M Z) (t : Z) (s : state)
    (b0 : Z) (s0 : state) :
  pre ∨ ¬ pre →
  (pre → m s = Some (b0, s0) ∧ initialised b0 t s0) →
  (¬ pre → m s = None) →
  returns_initialised pre m t s.
Proof.
  intros Hdec Hyes Hno. split.
  - intros Hpre. exists b0, s0. by apply Hyes.
  - intros b s' Hrun. destruct Hdec as [Hpre|Hnpre].
    + destruct (Hyes Hpre) as [Hrun' Hinit]. congruence.
    + rewrite (Hno Hnpre) in Hrun. discriminate.
Qed.

Section AllocationInitialised.
Variable E : externals.
Variable ARCH_LITTLE_ENDIAN : bool.

Lemma block_alloc_asserts (at_ size sf t : Z) (s : state) :
  ¬ sf < SCAN_FSIZE_MAX →
  block_alloc E ARCH_LITTLE_ENDIAN size sf t s = None
  ∧ block_alloc_any E ARCH_LITTLE_ENDIAN size sf t s = None
  ∧ block_alloc_at E ARCH_LITTLE_ENDIAN at_ size sf t s = None.
Proof.
  intros H.
  unfold block_alloc, block_alloc_any, block_alloc_at.
  by destruct (Z.ltb_spec sf SCAN_FSIZE_MAX); [lia|].
Qed.

(** C9.  Every block returned by [block_alloc], [block_alloc_any],
    [block_alloc_at] without storage and [block_large_alloc] has count 0
    ([block_is_unique] answers true), thread-shared flag 0 and the
    requested tag as its [block_tag]; so does the block [block_alloc_at]
    returns when it is given storage that is uniquely held, and that block
    is the storage.  The small allocations return whenever their scan size
    is below [SCAN_FSIZE_MAX] (they assert it), the large one whenever the
    request has room for the large header. *)
Theorem alloc_initialised (size sf t : Z) (s : state) :
  is_tag t →
  0 ≤ sf →
  returns_initialised (sf < SCAN_FSIZE_MAX)
    (block_alloc E ARCH_LITTLE_ENDIAN size sf t) t s
  ∧ returns_initialised (sf < SCAN_FSIZE_MAX)
      (block_alloc_any E ARCH_LITTLE_ENDIAN size sf t) t s
  ∧ returns_initialised (sf < SCAN_FSIZE_MAX)
      (block_alloc_at E ARCH_LITTLE_ENDIAN reuse_null size sf t) t s
  ∧ returns_initialised (sizeof_block_large_t ≤ size_t (size + 1))
      (block_large_alloc E size sf t) t s
  ∧ ∀ at_ blk,
      at_ ≠ reuse_null →
      heap s !! at_ = Some blk →
      refcount (header blk) = 0 →
      returns_initialised (sf < SCAN_FSIZE_MAX)
        (block_alloc_at E ARCH_LITTLE_ENDIAN at_ size sf t) t s
      ∧ ∀ b s', block_alloc_at E ARCH_LITTLE_ENDIAN at_ size sf t s = Some (b, s') →
                b = at_ ∧ calls s' = calls s.
Proof.
  intros Ht Hsf.
  assert (sf < SCAN_FSIZE_MAX ∨ ¬ sf < SCAN_FSIZE_MAX) as Hdec by lia.
  split; [|split; [|split; [|split]]].
  - eapply returns_initialised_intro; [exact Hdec| |].
    + intros Hlt.
      destruct (block_alloc_run E ARCH_LITTLE_ENDIAN size sf t s) as [H _];
        [lia|done|].
      split; [exact H|]. apply initialised_insert.
    + intros Hn. by destruct (block_alloc_asserts 0 size sf t s Hn) as (? & ? & ?).
  - eapply returns_initialised_intro; [exact Hdec| |].
    + intros Hlt. split.
      * apply (block_alloc_any_run E ARCH_LITTLE_ENDIAN size sf t s); [lia|done].
      * apply initialised_insert.
    + intros Hn. by destruct (block_alloc_asserts 0 size sf t s Hn) as (? & ? & ?).
  - eapply returns_initialised_intro; [exact Hdec| |].
    + intros Hlt.
      destruct (block_alloc_run E ARCH_LITTLE_ENDIAN size sf t s) as [_ H];
        [lia|done|].
      split; [exact H|]. apply initialised_insert.
    + intros Hn.
      by destruct (block_alloc_asserts reuse_null size sf t s Hn) as (? & ? & ?).
  - eapply returns_initialised_intro; [lia| |].
    + intros Hroom. split.
      * by apply (block_large_alloc_run E size sf t s).
      * apply initialised_insert.
    + intros Hn. by apply block_large_alloc_no_room.
  - intros at_ blk Hnn Hb Hrc.
    destruct Hdec as [Hlt|Hn].
    + pose proof (block_alloc_at_reuse_run E ARCH_LITTLE_ENDIAN at_ size sf t blk s
                    Hnn Hb Hrc (conj Hsf Hlt) Ht) as Hrun.
      split.
      * eapply returns_initialised_intro; [by left| |done].
        intros _. split; [exact Hrun|]. apply initialised_insert.
      * intros b s' Hrun'. rewrite Hrun in Hrun'. by inversion Hrun'.
    + destruct (block_alloc_asserts at_ size sf t s Hn) as (_ & _ & Hnone).
      split.
      * split; [done|]. intros b s' Hrun. rewrite Hnone in Hrun. discriminate.
      * intros b s' Hrun. rewrite Hnone in Hrun. discriminate.
Qed.

End AllocationInitialised.

Lemma alloc_initialised_witness :
  (∃ b s', block_alloc test_externals true 24 2 500 (state_of 16 (block_2 0))
           = Some (b, s') ∧ initialised b 500 s')
  ∧ (∃ b s', block_large_alloc test_externals 32 3 TAG_VECTOR
               (state_of 16 (block_2 0))
             = Some (b, s') ∧ initialised b TAG_VECTOR s')
  ∧ (∃ s', block_alloc_at test_externals true 16 24 1 TAG_REF
             (state_of 16 (block_2 0))
           = Some (16, s') ∧ initialised 16 TAG_REF s').
Proof.
  assert (∀ t, TAG_MIN ≤ t ≤ TAG_LAST → is_tag t) as Htag.
  { unfold is_tag, TAG_MIN, TAG_INVALID. lia. }
  split; [|split].
  - destruct (alloc_initialised test_externals true 24 2 500
                (state_of 16 (block_2 0))) as ([Hret Hinit] & _).
    + apply Htag. unfold TAG_MIN, TAG_LAST. lia.
    + lia.
    + destruct Hret as (b & s' & Hrun); [unfold SCAN_FSIZE_MAX; lia|].
      exists b, s'. split; [exact Hrun|]. by apply Hinit.
  - destruct (alloc_initialised test_externals true 32 3 TAG_VECTOR
                (state_of 16 (block_2 0))) as (_ & _ & _ & [Hret Hinit] & _).
    + apply Htag. unfold TAG_MIN, TAG_VECTOR, TAG_LAST. lia.
    + lia.
    + destruct Hret as (b & s' & Hrun); [vm_compute; discriminate|].
      exists b, s'. split; [exact Hrun|]. by apply Hinit.
  - destruct (alloc_initialised test_externals true 24 1 TAG_REF
                (state_of 16 (block_2 0))) as (_ & _ & _ & _ & Hat).
    + apply Htag. unfold TAG_MIN, TAG_REF, TAG_LAST. lia.
    + lia.
    + destruct (Hat 16 (block_2 0)) as [[Hret Hinit] Hsame];
        [discriminate|reflexivity|reflexivity|].
      destruct Hret as (b & s' & Hrun); [unfold SCAN_FSIZE_MAX; lia|].
      destruct (Hsame b s' Hrun) as [-> _].
      exists s'. split; [exact Hrun|]. by apply Hinit.
Defined.

(** ** The empty vector (C7) *)



(** ** Vectors are large blocks (C5) *)

Lemma box_enum_arith (u : Z) : box_enum u = (2 * u) mod 2 ^ 64 + 1.
Proof.
  unfold box_enum, uintptr_t, u64, wrap.
  rewrite Z.shiftl_mul_pow2 by lia.
  rewrite Z.mul_mod_idemp_l by lia.
  replace (u * 2 ^ 1) with (2 * u) by lia.
  apply lor_1_even.
  change (2 ^ 64) with 18446744073709551616.
  Z.div_mod_to_equations. lia.
Qed.

Lemma unbox_box_enum (u : Z) :
  0 ≤ u ≤ MAX_BOXED_ENUM → unbox_enum (box_enum u) = u.
Proof.
  unfold MAX_BOXED_ENUM. intros H.
  unfold unbox_enum. rewrite box_enum_arith.
  rewrite Z.shiftr_div_pow2 by lia.
  rewrite Z.mod_small by lia.
  change (2 ^ 1) with 2. Z.div_mod_to_equations. lia.
Qed.

Lemma block_scan_fsize_large (v x : Z) (blk : block_t) (s : state) :
  heap s !! v = Some blk →
  scan_fsize (header blk) = SCAN_FSIZE_MAX →
  fields blk !! 0%nat = Some x →
  block_scan_fsize v s = Some (unbox_enum x, s).
Proof.
  intros Hv Hsf Hx. unfold block_scan_fsize.
  rewrite (bind_Some _ _ _ _ _ (load_block_Some _ _ _ Hv)).
  rewrite Hsf, Z.eqb_refl. cbv beta iota zeta delta [negb].
  by rewrite (bind_Some _ _ _ _ _ (block_field_Some v 0 x blk s Hv Hx)).
Qed.

Lemma vector_len_run (v n : Z) (blk : block_t) (s : state) :
  heap s !! v = Some blk →
  scan_fsize (header blk) = SCAN_FSIZE_MAX →
  tag (header blk) = TAG_VECTOR →
  fields blk !! 0%nat = Some (box_enum (n + 1)) →
  0 ≤ n → n + 1 ≤ MAX_BOXED_ENUM →
  vector_len v s = Some (n, s).
Proof.
  intros Hv Hsf Htag Hx Hn Hmax.
  assert (unbox_enum (box_enum (n + 1)) = n + 1) as Hub
    by (apply unbox_box_enum; lia).
  unfold MAX_BOXED_ENUM in Hmax.
  assert (size_t n = n) as Hsz.
  { unfold size_t, u64, wrap. apply Z.mod_small. lia. }
  assert (size_t (n + 1) = n + 1) as Hsz1.
  { unfold size_t, u64, wrap. apply Z.mod_small. lia. }
  unfold vector_len.
  rewrite (bind_Some _ _ _ s v).
  2:{ unfold _block_as_assert, block_tag.
      rewrite (bind_Some _ _ _ s TAG_VECTOR); [done|].
      rewrite (bind_Some _ _ _ _ _ (load_block_Some _ _ _ Hv)). by rewrite Htag. }
  rewrite (bind_Some _ _ _ _ _ (block_field_Some v 0 _ blk s Hv Hx)).
  rewrite (bind_Some _ _ _ _ _ (block_scan_fsize_large v _ blk s Hv Hsf Hx)).
  rewrite Hub. replace (n + 1 - 1) with n by lia.
  rewrite Hsz, Hsz1, Z.eqb_refl.
  rewrite (bind_Some _ _ _ s tt) by done.
  destruct (Z.eqb_spec (n + 1) 0); [lia|]. done.
Qed.

Lemma is_vector_of_intro (n v rc : Z) (fs : list Z) (s : state) :
  heap s !! v = Some (Block (Header SCAN_FSIZE_MAX 0 TAG_VECTOR rc) fs) →
  fs !! 0%nat = Some (box_enum (n + 1)) →
  0 ≤ n → n + 1 ≤ MAX_BOXED_ENUM →
  is_vector_of n v s.
Proof.
  intros Hv Hx Hn Hmax.
  assert (unbox_enum (box_enum (n + 1)) = n + 1) as Hub
    by (apply unbox_box_enum; lia).
  eexists. split; [exact Hv|]. simpl. repeat split; try done.
  - rewrite <- Hub at 1. by eapply block_scan_fsize_large.
  - by eapply vector_len_run.
Qed.

(** The loop of [vector_alloc], entered at index [i] with [k] elements to
    go: it stores [def] in the fields [i+1], ..., [i+k] and leaves the
    header, the first field and the trace alone. *)
Lemma store_fields_loop (v def : Z) (k : nat) :
  ∀ (i : Z) (blk : block_t) (s : state),
    heap s !! v = Some blk →
    0 ≤ i →
    (Z.to_nat i + k < length (fields blk))%nat →
    ∃ fs,
      for_loop k i (λ j, store_field v (j + 1) def) s
      = Some (tt, {| heap := <[v := Block (header blk) fs]> (heap s);
                     calls := calls s |})
      ∧ fs !! 0%nat = fields blk !! 0%nat
      ∧ length fs = length (fields blk).
Proof.
  induction k as [|k IH]; intros i blk s Hv Hi Hlen.
  - exists (fields blk). split; [|done].
    simpl. unfold mret, M_ret. do 2 f_equal. destruct s as [h c]. simpl in *.
    f_equal. symmetry. apply insert_id. by destruct blk.
  - cbn [for_loop].
    rewrite (bind_Some _ _ _ _ _ (store_field_Some v (i + 1) def blk s Hv ltac:(lia))).
    destruct (IH (i + 1) (with_field (Z.to_nat (i + 1)) def blk)
                {| heap := <[v := with_field (Z.to_nat (i + 1)) def blk]> (heap s);
                   calls := calls s |}) as (fs & Hrun & H0 & Hl).
    + apply lookup_insert_eq.
    + lia.
    + simpl. rewrite length_insert. lia.
    + exists fs. split; [|split].
      * rewrite Hrun. simpl. by rewrite insert_insert_eq.
      * rewrite H0. simpl. apply list_lookup_insert_ne. lia.
      * rewrite Hl. simpl. apply length_insert.
Qed.

Lemma size_t_small (x : Z) : 0 ≤ x < 2 ^ 64 → size_t x = x.
Proof. intros H. unfold size_t, u64, wrap. by apply Z.mod_small. Qed.

Lemma vector_alloc_run (E : externals) (vector_empty n def : Z) (s : state) :
  0 < n →
  sizeof_vector_large_s + (n - 1) * sizeof_box_t < 2 ^ 64 →
  let sz := sizeof_vector_large_s + (n - 1) * sizeof_box_t + 1 in
  let p := ext_malloc E sz (heap s) in
  ∃ fs,
    vector_alloc E vector_empty n def s
    = Some (p, {| heap := <[p := Block (Header SCAN_FSIZE_MAX 0 TAG_VECTOR 0) fs]>
                            (heap s);
                  calls := calls s ++ [EvMalloc sz p] |})
    ∧ fs !! 0%nat = Some (box_enum (n + 1))
    ∧ length fs = Z.to_nat (n + 1).
Proof.
  intros Hn Hsize sz p.
  unfold sizeof_vector_large_s, sizeof_box_t in Hsize, sz.
  assert (size_t (24 + size_t ((n - 1) * 8)) = 24 + (n - 1) * 8) as Hs1.
  { rewrite (size_t_small ((n - 1) * 8)) by lia. apply size_t_small. lia. }
  assert (size_t (24 + (n - 1) * 8 + 1) = sz) as Hs2.
  { apply size_t_small. subst sz. Z.div_mod_to_equations. lia. }
  assert (size_t (n + 1) = n + 1) as Hs3 by (apply size_t_small; lia).
  assert ((sz - sizeof_header_t) / sizeof_box_t = n + 1) as Hwords.
  { subst sz. unfold sizeof_header_t, sizeof_box_t.
    Z.div_mod_to_equations. lia. }
  assert (is_tag TAG_VECTOR) as Htag.
  { unfold is_tag, TAG_INVALID, TAG_VECTOR, TAG_LAST. lia. }
  assert (sizeof_block_large_t ≤ size_t (24 + (n - 1) * 8 + 1)) as Hroom.
  { rewrite Hs2. unfold sizeof_block_large_t. subst sz. lia. }
  pose proof (block_large_alloc_run E (24 + (n - 1) * 8) (n + 1) TAG_VECTOR s
                Hroom Htag) as Halloc.
  cbv zeta in Halloc. rewrite Hs2 in Halloc. fold p in Halloc.
  set (fs0 := <[0%nat := box_enum (n + 1)]> (fields (fresh_block E sz))) in *.
  assert (length fs0 = Z.to_nat (n + 1)) as Hlen0.
  { subst fs0. by rewrite length_insert, fresh_block_length, Hwords. }
  assert (fs0 !! 0%nat = Some (box_enum (n + 1))) as Hx0.
  { subst fs0. apply list_lookup_insert_eq.
    rewrite fresh_block_length, Hwords. lia. }
  unfold vector_alloc.
  destruct (Z.eqb_spec n 0); [lia|].
  unfold sizeof_vector_large_s, sizeof_box_t. rewrite Hs1, Hs3.
  rewrite (bind_Some _ _ _ _ _ Halloc).
  destruct (def =? box_null); cbv beta iota delta [negb].
  - exists fs0. split; [|done].
    by rewrite (bind_Some _ _ _ _ tt eq_refl).
  - set (s1 := {| heap := <[p := Block (Header SCAN_FSIZE_MAX 0 TAG_VECTOR 0) fs0]>
                            (heap s);
                  calls := calls s ++ [EvMalloc sz p] |}).
    destruct (store_fields_loop p def (Z.to_nat n) 0
                (Block (Header SCAN_FSIZE_MAX 0 TAG_VECTOR 0) fs0) s1)
      as (fs & Hrun & H0 & Hl).
    + apply lookup_insert_eq.
    + lia.
    + simpl. lia.
    + exists fs. split; [|split].
      * unfold for_upto. rewrite (bind_Some _ _ _ _ _ Hrun).
        subst s1. simpl. by rewrite insert_insert_eq.
      * by rewrite H0.
      * by rewrite Hl.
Qed.

(** C5, as amended.  For every length [n > 0] whose byte size
    [sizeof(struct vector_large_s) + (n-1)*sizeof(box_t)] fits in a
    [size_t], and every default value, [vector_alloc] returns a large
    block: the inline scan size is [0xFF], the first field boxes [n+1],
    [block_scan_fsize] answers [n+1] and [vector_len] answers [n]. *)
Theorem vector_alloc_is_large (E : externals) (vector_empty n def : Z)
    (s : state) :
  0 < n →
  sizeof_vector_large_s + (n - 1) * sizeof_box_t < 2 ^ 64 →
  vector_alloc_large E vector_empty n def s.
Proof.
  intros Hn Hsize.
  destruct (vector_alloc_run E vector_empty n def s Hn Hsize)
    as (fs & Hrun & Hx & Hlen).
  eexists _, _. split; [exact Hrun|].
  eapply is_vector_of_intro; [apply lookup_insert_eq|exact Hx|lia|].
  unfold MAX_BOXED_ENUM, sizeof_vector_large_s, sizeof_box_t in *. lia.
Qed.

Lemma vector_alloc_is_large_witness :
  vector_alloc_large test_externals 8 3 (box_enum 7)
    (state_of 8 block_vector_empty).
Proof.
  apply vector_alloc_is_large.
  - lia.
  - vm_compute. reflexivity.
Defined.

(** The model at the length [2^63] with the default [box_null]: the byte
    size wraps around to 16, and the boxed scan size loses its top bit. *)
Lemma vector_alloc_huge_run :
  vector_alloc test_externals 8 (2 ^ 63) box_null (state_of 8 block_vector_empty)
  = Some (16, state_huge_vector)
  ∧ block_scan_fsize 16 state_huge_vector = Some (1, state_huge_vector)
  ∧ vector_len 16 state_huge_vector = Some (0, state_huge_vector).
Proof. repeat split; vm_compute; reflexivity. Qed.

(** The first length whose byte size wraps around, [2^61 - 2]: one byte
    is requested, and the store of [large_scan_fsize] falls outside it. *)
Lemma vector_alloc_size_wraps (def : Z) :
  sizeof_vector_large_s + (2 ^ 61 - 2 - 1) * sizeof_box_t = 2 ^ 64
  ∧ vector_alloc test_externals 8 (2 ^ 61 - 2) def
      (state_of 8 block_vector_empty) = None.
Proof. split; vm_compute; reflexivity. Qed.

(** C5, as stated, fails at the length [2^63]: the block returned for
    [vector_alloc(2^63, box_null)] has scan size 1 and length 0. *)
Lemma vector_alloc_huge_length_counterexample :
  0 < 2 ^ 63
  ∧ ¬ vector_alloc_large test_externals 8 (2 ^ 63) box_null
        (state_of 8 block_vector_empty).
Proof.
  split; [lia|].
  intros (v & s' & Hrun & blk & _ & _ & _ & _ & Hscan & _).
  destruct vector_alloc_huge_run as (Hrun' & Hscan' & _).
  rewrite Hrun' in Hrun. inversion Hrun; subst v s'.
  rewrite Hscan' in Hscan. inversion Hscan.
Qed.

(** * Further properties of the header *)

(** ** Tags and the yielding flags *)

(** X1.  Among the values of [tag_t], [tag_is_raw] holds exactly for
    [TAG_CPTR_RAW], [TAG_STRING_RAW], [TAG_BYTES_RAW] and the end marker
    [TAG_LAST]: no constructor tag and no built-in tag up to [TAG_CFUNPTR]
    is raw. *)
Theorem tag_is_raw_exactly (t : Z) :
  is_tag t →
  (tag_is_raw t = true
   ↔ t = TAG_CPTR_RAW ∨ t = TAG_STRING_RAW ∨ t = TAG_BYTES_RAW ∨ t = TAG_LAST)
  ∧ (t ≤ TAG_CFUNPTR → tag_is_raw t = false).
Proof.
  unfold is_tag, tag_is_raw, TAG_INVALID, TAG_LAST, TAG_CPTR_RAW,
    TAG_STRING_RAW, TAG_BYTES_RAW, TAG_CFUNPTR.
  intros Ht. split.
  - rewrite Z.leb_le. lia.
  - intros Hle. apply Z.leb_gt. lia.
Qed.

Lemma tag_is_raw_exactly_witness :
  tag_is_raw TAG_VECTOR = false ∧ tag_is_raw TAG_MAX = false.
Proof.
  split.
  - apply (tag_is_raw_exactly TAG_VECTOR).
    + unfold is_tag, TAG_INVALID, TAG_VECTOR, TAG_LAST. lia.
    + unfold TAG_VECTOR, TAG_CFUNPTR. lia.
  - apply (tag_is_raw_exactly TAG_MAX).
    + unfold is_tag, TAG_INVALID, TAG_MAX, TAG_LAST. lia.
    + unfold TAG_MAX, TAG_CFUNPTR. lia.
Defined.

(** X2.  The three tests of the yielding flag: final and non-final
    yielding exclude each other, each of them implies [_yielding], and
    [_yielding] is false exactly for [YIELD_NONE]. *)
Theorem yielding_kinds (ctx : context_t) :
  (yielding_final ctx = true → yielding_non_final ctx = false)
  ∧ (yielding_final ctx = true → _yielding ctx = true)
  ∧ (yielding_non_final ctx = true → _yielding ctx = true)
  ∧ (_yielding ctx = false ↔ yielding ctx = YIELD_NONE).
Proof.
  unfold yielding_final, yielding_non_final, _yielding,
    YIELD_NONE, YIELD_NORMAL, YIELD_FINAL.
  destruct (Z.eqb_spec (yielding ctx) 2), (Z.eqb_spec (yielding ctx) 1),
    (Z.eqb_spec (yielding ctx) 0); simpl; repeat split; intros; try done; lia.
Qed.

(** ** Drop, decref and duplicate, case by case *)

(** X3.  [drop_block] on a 32-bit count: the count zero is handed to
    [block_check_free] (one call, nothing written by [drop_block]); every
    other count, whatever its top bit, is written back one lower in place
    and nothing is called. *)
Theorem drop_block_cases (E : externals) (b : Z) (blk : block_t) (s : state) :
  heap s !! b = Some blk →
  is_uint32 (refcount (header blk)) →
  drop_block E b s
  = Some (tt, if refcount (header blk) =? 0
              then {| heap := ext_block_check_free E b 0 (heap s);
                      calls := calls s ++ [EvBlockCheckFree b 0] |}
              else set_refcount b (refcount (header blk) - 1) blk s).
Proof.
  intros Hb Hrc.
  destruct (Z.eqb_spec (refcount (header blk)) 0) as [Hz|Hnz].
  - by rewrite (drop_block_zero E b blk s Hb Hz).
  - by apply drop_block_nonzero.
Qed.

Lemma drop_block_cases_witness :
  drop_block test_externals 16 (state_parent_child 2 1)
  = Some (tt, state_parent_child 1 1)
  ∧ (drop_block test_externals 16 (state_parent_child 0 1) ≫= λ r, mret (calls r.2))
    = Some [EvBlockCheckFree 16 0].
Proof.
  split.
  - rewrite (drop_block_cases test_externals 16 (block_2 2)).
    + vm_compute. reflexivity.
    + reflexivity.
    + unfold is_uint32. simpl. lia.
  - rewrite (drop_block_cases test_externals 16 (block_2 0)).
    + reflexivity.
    + reflexivity.
    + unfold is_uint32. simpl. lia.
Defined.

(** X4.  [block_decref] aborts on the count zero (its first assertion);
    on every other 32-bit count it writes the count back one lower in
    place and calls nothing: the branch with [assert_internal(false)] and
    [block_check_free] is never taken. *)
Theorem block_decref_cases (E : externals) (b : Z) (blk : block_t) (s : state) :
  heap s !! b = Some blk →
  is_uint32 (refcount (header blk)) →
  block_decref E b s
  = if refcount (header blk) =? 0 then None
    else Some (tt, set_refcount b (refcount (header blk) - 1) blk s).
Proof.
  intros Hb Hrc.
  destruct (Z.eqb_spec (refcount (header blk)) 0) as [Hz|Hnz].
  - unfold block_decref.
    rewrite (bind_Some _ _ _ _ _ (load_block_Some _ _ _ Hb)).
    by rewrite Hz.
  - by apply block_decref_nonzero.
Qed.

Lemma block_decref_cases_witness :
  block_decref test_externals 16 (state_parent_child 0 1) = None
  ∧ block_decref test_externals 16 (state_parent_child 3 1)
    = Some (tt, state_parent_child 2 1).
Proof.
  split.
  - rewrite (block_decref_cases test_externals 16 (block_2 0));
      [reflexivity|reflexivity|unfold is_uint32; simpl; lia].
  - rewrite (block_decref_cases test_externals 16 (block_2 3));
      [vm_compute; reflexivity|reflexivity|unfold is_uint32; simpl; lia].
Defined.

(** X5.  [dup_block] on a count whose top bit is set writes nothing
    itself: it makes one call of [dup_block_check] with the block and the
    count it read, and its result and the heap it leaves are those of that
    call. *)
Theorem dup_block_top_bit_delegates (E : externals) (b : Z) (blk : block_t)
    (s : state) :
  heap s !! b = Some blk →
  is_uint32 (refcount (header blk)) →
  2 ^ 31 ≤ refcount (header blk) →
  dup_block E b s
  = Some ((ext_dup_block_check E b (refcount (header blk)) (heap s)).1,
          {| heap := (ext_dup_block_check E b (refcount (header blk)) (heap s)).2;
             calls := calls s ++ [EvDupBlockCheck b (refcount (header blk))] |}).
Proof.
  intros Hb Hrc Htop.
  rewrite (dup_block_slow E b blk s Hb) by (apply int32_t_neg; [done|lia]).
  unfold dup_block_check, emit, call_heap, mbind, M_bind. simpl.
  by destruct (ext_dup_block_check E b (refcount (header blk)) (heap s)).
Qed.

Lemma dup_block_top_bit_delegates_witness :
  dup_block test_externals 16 (state_of 16 (block_ts 0x80000001))
  = Some (16, {| heap := {[ 16 := block_ts 0x80000002 ]};
                 calls := [EvDupBlockCheck 16 0x80000001] |}).
Proof.
  rewrite (dup_block_top_bit_delegates test_externals 16 (block_ts 0x80000001)).
  - vm_compute. reflexivity.
  - reflexivity.
  - unfold is_uint32. simpl. lia.
  - simpl. lia.
Defined.

(** ** Repeated duplicate and drop *)

Lemma set_refcount_id (b : Z) (blk : block_t) (s : state) :
  heap s !! b = Some blk →
  set_refcount b (refcount (header blk)) blk s = s.
Proof.
  intros Hb. unfold set_refcount.
  rewrite with_refcount_id, (insert_id _ _ _ Hb). by destruct s.
Qed.

Lemma set_refcount_twice (b x y : Z) (blk : block_t) (s : state) :
  set_refcount b x (with_refcount y blk) (set_refcount b y blk s)
  = set_refcount b x blk s.
Proof.
  unfold set_refcount. simpl. by rewrite insert_insert_eq, with_refcount_twice.
Qed.

Lemma set_refcount_lookup (b x : Z) (blk : block_t) (s : state) :
  heap (set_refcount b x blk s) !! b = Some (with_refcount x blk).
Proof. apply lookup_insert_eq. Qed.

(** One more run at the end is one more run at the start. *)
Lemma times_snoc (m : M unit) (k : nat) :
  ∀ s, times (S k) m s = (times k m;; m) s.
Proof.
  induction k as [|k IH]; intros s.
  - unfold times, mbind, M_bind, mret, M_ret.
    by destruct (m s) as [[[] s1]|].
  - change (times (S (S k)) m) with (m;; times (S k) m).
    change (times (S k) m;; m) with ((m;; times k m);; m).
    unfold mbind, M_bind.
    destruct (m s) as [[[] s1]|]; [|done].
    rewrite IH. reflexivity.
Qed.

Section Times.
Variable E : externals.
Variable b : Z.

Lemma times_dup_run (k : nat) :
  ∀ (blk : block_t) (s : state),
    heap s !! b = Some blk →
    0 ≤ refcount (header blk) →
    refcount (header blk) + Z.of_nat k ≤ 2 ^ 31 →
    times k (dup_block E b) s
    = Some (tt, set_refcount b (refcount (header blk) + Z.of_nat k) blk s).
Proof.
  induction k as [|k IH]; intros blk s Hb H0 Hk.
  - simpl. rewrite Z.add_0_r, (set_refcount_id _ _ _ Hb). done.
  - cbn [times].
    rewrite (bind_Some _ _ _ _ _
               (dup_block_fast E b blk s Hb ltac:(unfold is_uint32; lia)
                  ltac:(rewrite int32_t_small; lia))).
    rewrite (IH (with_refcount (refcount (header blk) + 1) blk)).
    + simpl. rewrite set_refcount_twice. do 3 f_equal. lia.
    + apply set_refcount_lookup.
    + simpl. lia.
    + simpl. lia.
Qed.

Lemma times_drop_run (k : nat) :
  ∀ (blk : block_t) (s : state),
    heap s !! b = Some blk →
    is_uint32 (refcount (header blk)) →
    Z.of_nat k ≤ refcount (header blk) →
    times k (drop_block E b) s
    = Some (tt, set_refcount b (refcount (header blk) - Z.of_nat k) blk s).
Proof.
  induction k as [|k IH]; intros blk s Hb Hrc Hk.
  - simpl. rewrite Z.sub_0_r, (set_refcount_id _ _ _ Hb). done.
  - cbn [times]. unfold is_uint32 in Hrc.
    rewrite (bind_Some _ _ _ _ _
               (drop_block_nonzero E b blk s Hb ltac:(unfold is_uint32; lia)
                  ltac:(lia))).
    rewrite (IH (with_refcount (refcount (header blk) - 1) blk)).
    + simpl. rewrite set_refcount_twice. do 3 f_equal. lia.
    + apply set_refcount_lookup.
    + simpl. unfold is_uint32. lia.
    + simpl. lia.
Qed.

(** X6.  On a block whose count stays within [0, 2^31] on the way,
    [dup_block] [k] times followed by [drop_block] [k] times leaves the
    state exactly as it was: the count is back, nothing was called, no
    other block was touched. *)
Theorem dup_drop_times_identity (k : nat) (blk : block_t) (s : state) :
  heap s !! b = Some blk →
  0 ≤ refcount (header blk) →
  refcount (header blk) + Z.of_nat k ≤ 2 ^ 31 →
  dup_drop_times E k b s = Some (tt, s).
Proof.
  intros Hb H0 Hk. unfold dup_drop_times.
  rewrite (bind_Some _ _ _ _ _ (times_dup_run k blk s Hb H0 Hk)).
  rewrite (times_drop_run k (with_refcount (refcount (header blk) + Z.of_nat k) blk)).
  - simpl. rewrite set_refcount_twice.
    replace (refcount (header blk) + Z.of_nat k - Z.of_nat k)
      with (refcount (header blk)) by lia.
    by rewrite set_refcount_id.
  - apply set_refcount_lookup.
  - simpl. unfold is_uint32. lia.
  - simpl. lia.
Qed.

(** X7.  A block whose 32-bit count is [rc] takes [rc] drops without any
    call: they leave the count at zero and the block in the heap.  The
    drop after those is the one that calls [block_check_free], once, with
    the count zero. *)
Theorem drop_times_until_zero (blk : block_t) (s : state) :
  heap s !! b = Some blk →
  is_uint32 (refcount (header blk)) →
  times (Z.to_nat (refcount (header blk))) (drop_block E b) s
  = Some (tt, set_refcount b 0 blk s)
  ∧ times (S (Z.to_nat (refcount (header blk)))) (drop_block E b) s
    = Some (tt, {| heap := ext_block_check_free E b 0
                             (<[b := with_refcount 0 blk]> (heap s));
                   calls := calls s ++ [EvBlockCheckFree b 0] |}).
Proof.
  intros Hb Hrc. unfold is_uint32 in Hrc.
  assert (times (Z.to_nat (refcount (header blk))) (drop_block E b) s
          = Some (tt, set_refcount b 0 blk s)) as Hrun.
  { rewrite (times_drop_run _ blk s Hb); [|done|lia].
    do 3 f_equal. lia. }
  split; [exact Hrun|].
  rewrite times_snoc, (bind_Some _ _ _ _ _ Hrun).
  by rewrite (drop_block_zero E b (with_refcount 0 blk) _
                (set_refcount_lookup _ _ _ _) eq_refl).
Qed.

End Times.

Lemma dup_drop_times_identity_witness :
  dup_drop_times test_externals 5 16 (state_parent_child 0 1)
  = Some (tt, state_parent_child 0 1).
Proof.
  apply (dup_drop_times_identity test_externals 16 5 (block_2 0)).
  - reflexivity.
  - simpl. lia.
  - simpl. lia.
Defined.

Lemma drop_times_until_zero_witness :
  times 2 (drop_block test_externals 16) (state_parent_child 2 1)
  = Some (tt, state_parent_child 0 1)
  ∧ (times 3 (drop_block test_externals 16) (state_parent_child 2 1)
     ≫= λ r, mret (calls r.2)) = Some [EvBlockCheckFree 16 0].
Proof.
  destruct (drop_times_until_zero test_externals 16 (block_2 2)
              (state_parent_child 2 1)) as [H2 H3].
  - reflexivity.
  - unfold is_uint32. simpl. lia.
  - split.
    + change 2%nat with (Z.to_nat (refcount (header (block_2 2)))).
      rewrite H2. vm_compute. reflexivity.
    + change 3%nat with (S (Z.to_nat (refcount (header (block_2 2))))).
      rewrite H3. reflexivity.
Defined.

(** ** Drop with a static count, and reuse tokens *)

Lemma runtime_free_Some (b : Z) (blk : block_t) (s : state) :
  b ≠ 0 →
  heap s !! b = Some blk →
  runtime_free b s
  = Some (tt, {| heap := delete b (heap s); calls := calls s |}).
Proof.
  intros Hnz Hb. unfold runtime_free.
  destruct (Z.eqb_spec b 0); [done|].
  by rewrite (bind_Some _ _ _ _ _ (load_block_Some _ _ _ Hb)).
Qed.

Lemma block_check_free_run (E : externals) (b rc : Z) (s : state) :
  block_check_free E b rc s
  = Some (tt, {| heap := ext_block_check_free E b rc (heap s);
                 calls := calls s ++ [EvBlockCheckFree b rc] |}).
Proof. done. Qed.

Section DropN.
Variable E : externals.
Variables (b : Z) (blk : block_t).

(** The three branches of [drop_reuse_blockn] and [drop_blockn]. *)
Lemma drop_reuse_blockn_zero (N : Z) (s s1 : state) :
  heap s !! b = Some blk →
  refcount (header blk) = 0 →
  block_scan_fsize b s = Some (N, s) →
  for_loop (Z.to_nat N) 0 (λ j, v ← block_field b j; drop_box_t E v) s
  = Some (tt, s1) →
  drop_reuse_blockn E b N s = Some (b, s1)
  ∧ drop_blockn E b N s = runtime_free b s1.
Proof.
  intros Hb Hrc Hscan Hloop. split.
  - unfold drop_reuse_blockn.
    rewrite (bind_Some _ _ _ _ _ (load_block_Some _ _ _ Hb)).
    rewrite Hrc. cbv zeta. change (0 =? 0) with true. cbv iota.
    rewrite (bind_Some _ _ _ _ _ Hscan), Z.eqb_refl.
    rewrite (bind_Some _ _ _ s tt) by done.
    unfold for_upto. by rewrite (bind_Some _ _ _ _ _ Hloop).
  - unfold drop_blockn.
    rewrite (bind_Some _ _ _ _ _ (load_block_Some _ _ _ Hb)).
    rewrite Hrc. cbv zeta. change (0 =? 0) with true. cbv iota.
    rewrite (bind_Some _ _ _ _ _ Hscan), Z.eqb_refl.
    rewrite (bind_Some _ _ _ s tt) by done.
    unfold for_upto. by rewrite (bind_Some _ _ _ _ _ Hloop).
Qed.

Lemma drop_blockn_positive (n : Z) (s : state) :
  heap s !! b = Some blk →
  is_uint32 (refcount (header blk)) →
  0 < int32_t (refcount (header blk)) →
  drop_reuse_blockn E b n s
  = Some (reuse_null, set_refcount b (refcount (header blk) - 1) blk s)
  ∧ drop_blockn E b n s
    = Some (tt, set_refcount b (refcount (header blk) - 1) blk s).
Proof.
  intros Hb Hrc Hpos.
  assert (Hrange := proj1 (int32_t_pos _ Hrc) Hpos).
  assert (u32 (refcount (header blk) - 1) = refcount (header blk) - 1) as Hu.
  { apply u32_id. unfold is_uint32. lia. }
  unfold drop_reuse_blockn, drop_blockn.
  rewrite !(bind_Some _ _ _ _ _ (load_block_Some _ _ _ Hb)).
  destruct (Z.eqb_spec (refcount (header blk)) 0); [lia|].
  destruct (Z.ltb_spec (int32_t (refcount (header blk))) 0); [lia|].
  rewrite Hu. split.
  - by rewrite (bind_Some _ _ _ _ _ (store_refcount_Some _ _ _ _ Hb)).
  - by rewrite (store_refcount_Some _ _ _ _ Hb).
Qed.

Lemma drop_blockn_top_bit (n : Z) (s : state) :
  heap s !! b = Some blk →
  is_uint32 (refcount (header blk)) →
  2 ^ 31 ≤ refcount (header blk) →
  drop_reuse_blockn E b n s
  = Some (reuse_null,
          {| heap := ext_block_check_free E b (refcount (header blk)) (heap s);
             calls := calls s ++ [EvBlockCheckFree b (refcount (header blk))] |})
  ∧ drop_blockn E b n s
    = Some (tt,
            {| heap := ext_block_check_free E b (refcount (header blk)) (heap s);
               calls := calls s ++ [EvBlockCheckFree b (refcount (header blk))] |}).
Proof.
  intros Hb Hrc Htop.
  assert (Hneg := proj2 (int32_t_neg _ Hrc) Htop).
  unfold drop_reuse_blockn, drop_blockn.
  rewrite !(bind_Some _ _ _ _ _ (load_block_Some _ _ _ Hb)).
  destruct (Z.eqb_spec (refcount (header blk)) 0); [lia|].
  destruct (Z.ltb_spec (int32_t (refcount (header blk))) 0); [|lia].
  split; [|done].
  by rewrite (bind_Some _ _ _ _ _ (block_check_free_run E b _ s)).
Qed.

Lemma drop_reuse_t_unique (s : state) :
  b ≠ reuse_null →
  heap s !! b = Some blk →
  refcount (header blk) = 0 →
  drop_reuse_t b s
  = Some (tt, {| heap := delete b (heap s); calls := calls s |}).
Proof.
  intros Hnn Hb Hz. unfold drop_reuse_t.
  destruct (Z.eqb_spec b reuse_null); [done|]. cbv beta iota delta [negb].
  unfold block_is_unique.
  rewrite (bind_Some _ _ _ s true).
  2:{ rewrite (bind_Some _ _ _ _ _ (load_block_Some _ _ _ Hb)). by rewrite Hz. }
  rewrite (bind_Some _ _ _ s tt) by done.
  by apply (runtime_free_Some b blk).
Qed.

(** X8.  [drop_blockn] on a block whose count is zero and whose scan size
    is the static count [N] (the [N] fields lying inside the block, and
    the block still in place after each drop of the run): it calls
    [drop_box_t] on the fields 0, ..., N-1, once each and in this order,
    and then frees the block: the heap it leaves is the one those drops
    leave, without the block. *)
Theorem drop_blockn_unique (N : Z) (s : state) :
  heap s !! reuse_null = None →
  heap s !! b = Some blk →
  refcount (header blk) = 0 →
  block_scan_fsize b s = Some (N, s) →
  N ≤ Z.of_nat (length (fields blk)) →
  (∀ k : nat, (k ≤ Z.to_nat N)%nat →
     drops_heap E (take k (fields blk)) (heap s) !! b = Some blk) →
  ∃ s',
    drop_blockn E b N s = Some (tt, s')
    ∧ heap s' = delete b (drops_heap E (take (Z.to_nat N) (fields blk)) (heap s))
    ∧ heap s' !! b = None
    ∧ calls s' = calls s ++ map EvDropBox (take (Z.to_nat N) (fields blk)).
Proof.
  intros Hnull Hb Hrc Hscan HN Hframe.
  pose proof (drop_fields_loop E b blk (Z.to_nat N) 0 s) as Hrun.
  change (Z.to_nat 0) with 0%nat in Hrun. rewrite drop_0 in Hrun.
  specialize (Hrun ltac:(lia) ltac:(lia) Hframe).
  destruct (drop_reuse_blockn_zero N s _ Hb Hrc Hscan Hrun) as [_ Hdrop].
  assert (b ≠ 0) as Hnz.
  { intros ->. unfold reuse_null in Hnull. congruence. }
  rewrite (runtime_free_Some b blk
             {| heap := drops_heap E (take (Z.to_nat N) (fields blk)) (heap s);
                calls := calls s
                         ++ map EvDropBox (take (Z.to_nat N) (fields blk)) |}
             Hnz (Hframe (Z.to_nat N) ltac:(lia)))
    in Hdrop.
  eexists. split; [exact Hdrop|]. simpl.
  split; [done|]. split; [apply lookup_delete_eq|done].
Qed.

(** X9.  On a count whose top bit is set, [drop_blockn] and
    [drop_reuse_blockn] write nothing themselves: each makes one call of
    [block_check_free] with the block and the count it read, and
    [drop_reuse_blockn] returns [reuse_null]. *)
Theorem drop_blockn_top_bit_delegates (n : Z) (s : state) :
  heap s !! b = Some blk →
  is_uint32 (refcount (header blk)) →
  2 ^ 31 ≤ refcount (header blk) →
  drop_blockn E b n s
  = Some (tt,
          {| heap := ext_block_check_free E b (refcount (header blk)) (heap s);
             calls := calls s ++ [EvBlockCheckFree b (refcount (header blk))] |})
  ∧ drop_reuse_blockn E b n s
    = Some (reuse_null,
            {| heap := ext_block_check_free E b (refcount (header blk)) (heap s);
               calls := calls s ++ [EvBlockCheckFree b (refcount (header blk))] |}).
Proof.
  intros Hb Hrc Htop.
  destruct (drop_blockn_top_bit n s Hb Hrc Htop) as [H1 H2]. by split.
Qed.

(** X10.  [drop_reuse_blockx] on a count that is zero or has its top bit
    set drops no field and writes nothing itself: it makes one call of
    [block_check_reuse] and returns what that call returns. *)
Theorem drop_reuse_blockx_delegates (s : state) :
  heap s !! b = Some blk →
  is_uint32 (refcount (header blk)) →
  refcount (header blk) = 0 ∨ 2 ^ 31 ≤ refcount (header blk) →
  drop_reuse_blockx E b s
  = Some ((ext_block_check_reuse E b (refcount (header blk)) (heap s)).1,
          {| heap := (ext_block_check_reuse E b (refcount (header blk)) (heap s)).2;
             calls := calls s ++ [EvBlockCheckReuse b (refcount (header blk))] |}).
Proof.
  intros Hb Hrc Hcase.
  assert (int32_t (refcount (header blk)) ≤ 0) as Hle.
  { destruct Hcase as [->|Htop]; [done|].
    apply (int32_t_neg _ Hrc) in Htop. lia. }
  unfold drop_reuse_blockx.
  rewrite (bind_Some _ _ _ _ _ (load_block_Some _ _ _ Hb)).
  destruct (Z.leb_spec (int32_t (refcount (header blk))) 0); [|lia].
  unfold block_check_reuse, emit, call_heap, mbind, M_bind. simpl.
  by destruct (ext_block_check_reuse E b (refcount (header blk)) (heap s)).
Qed.

(** X11.  [drop_reuse_t] does nothing for [reuse_null]; for a block it
    aborts unless the count is zero, and then frees the block without
    touching any other. *)
Theorem drop_reuse_t_cases (s : state) :
  b ≠ reuse_null →
  heap s !! b = Some blk →
  drop_reuse_t reuse_null s = Some (tt, s)
  ∧ drop_reuse_t b s
    = if refcount (header blk) =? 0
      then Some (tt, {| heap := delete b (heap s); calls := calls s |})
      else None.
Proof.
  intros Hnn Hb. split; [done|].
  unfold drop_reuse_t.
  destruct (Z.eqb_spec b reuse_null); [done|]. cbv beta iota delta [negb].
  unfold block_is_unique.
  rewrite (bind_Some _ _ _ s (refcount (header blk) =? 0)).
  2:{ by rewrite (bind_Some _ _ _ _ _ (load_block_Some _ _ _ Hb)). }
  destruct (refcount (header blk) =? 0).
  - rewrite (bind_Some _ _ _ s tt) by done.
    by apply (runtime_free_Some b blk).
  - done.
Qed.

(** X12.  Dropping for reuse and then giving the token back is dropping:
    on a block with a 32-bit count, [drop_reuse_blockn] followed by
    [drop_reuse_t] on its result ends in the same state as [drop_blockn]
    (for a count of zero, with the scanned fields inside the block and the
    block still in place after each drop of the run). *)
Theorem drop_reuse_then_release_is_drop (N : Z) (s : state) :
  heap s !! reuse_null = None →
  heap s !! b = Some blk →
  is_uint32 (refcount (header blk)) →
  (refcount (header blk) = 0 →
   block_scan_fsize b s = Some (N, s)
   ∧ N ≤ Z.of_nat (length (fields blk))
   ∧ ∀ k : nat, (k ≤ Z.to_nat N)%nat →
       drops_heap E (take k (fields blk)) (heap s) !! b = Some blk) →
  ∃ s',
    drop_blockn E b N s = Some (tt, s')
    ∧ (drop_reuse_blockn E b N ≫= drop_reuse_t) s = Some (tt, s').
Proof.
  intros Hnull Hb Hrc Hzero.
  assert (b ≠ 0) as Hnz.
  { intros ->. unfold reuse_null in Hnull. congruence. }
  destruct (Z.eq_dec (refcount (header blk)) 0) as [Hz|Hnzc].
  - destruct (Hzero Hz) as (Hscan & HN & Hframe).
    pose proof (drop_fields_loop E b blk (Z.to_nat N) 0 s) as Hrun.
    change (Z.to_nat 0) with 0%nat in Hrun. rewrite drop_0 in Hrun.
    specialize (Hrun ltac:(lia) ltac:(lia) Hframe).
    set (s1 := {| heap := drops_heap E (take (Z.to_nat N) (fields blk)) (heap s);
                  calls := calls s
                           ++ map EvDropBox (take (Z.to_nat N) (fields blk)) |})
      in *.
    assert (heap s1 !! b = Some blk) as Hb1 by (apply Hframe; lia).
    destruct (drop_reuse_blockn_zero N s s1 Hb Hz Hscan Hrun) as [Hreuse Hdrop].
    rewrite (runtime_free_Some b blk s1 Hnz Hb1) in Hdrop.
    eexists. split; [exact Hdrop|].
    rewrite (bind_Some _ _ _ _ _ Hreuse).
    by rewrite (drop_reuse_t_unique s1 Hnz Hb1 Hz).
  - destruct (Z.lt_ge_cases (refcount (header blk)) (2 ^ 31)) as [Hlt|Hge].
    + destruct (drop_blockn_positive N s Hb Hrc) as [Hreuse Hdrop].
      { apply int32_t_pos; [done|]. unfold is_uint32 in Hrc. lia. }
      eexists. split; [exact Hdrop|].
      by rewrite (bind_Some _ _ _ _ _ Hreuse).
    + destruct (drop_blockn_top_bit N s Hb Hrc Hge) as [Hreuse Hdrop].
      eexists. split; [exact Hdrop|].
      by rewrite (bind_Some _ _ _ _ _ Hreuse).
Qed.

(** X13.  On a count that is non-negative as an [int32_t],
    [drop_reuse_block], which reads the scan size from the block, and
    [drop_reuse_blockn] with that scan size as its static count are the
    same computation. *)
Theorem drop_reuse_block_agrees_with_blockn (N : Z) (s : state) :
  heap s !! b = Some blk →
  is_uint32 (refcount (header blk)) →
  0 ≤ int32_t (refcount (header blk)) →
  block_scan_fsize b s = Some (N, s) →
  drop_reuse_block E b s = drop_reuse_blockn E b N s.
Proof.
  intros Hb Hrc Hpos Hscan.
  apply (int32_t_nonneg _ Hrc) in Hpos. unfold is_uint32 in Hrc.
  destruct (Z.eq_dec (refcount (header blk)) 0) as [Hz|Hnzc].
  - unfold drop_reuse_block, drop_reuse_blockn.
    rewrite !(bind_Some _ _ _ _ _ (load_block_Some _ _ _ Hb)).
    rewrite Hz. cbv zeta.
    change (int32_t 0 =? 0) with true. change (0 =? 0) with true. cbv iota.
    rewrite !(bind_Some _ _ _ _ _ Hscan), Z.eqb_refl.
    by rewrite (bind_Some _ _ _ s tt eq_refl).
  - destruct (drop_blockn_positive N s Hb) as [-> _].
    { done. }
    { apply int32_t_pos; [done|lia]. }
    unfold drop_reuse_block.
    rewrite (bind_Some _ _ _ _ _ (load_block_Some _ _ _ Hb)).
    rewrite int32_t_small by lia.
    destruct (Z.eqb_spec (refcount (header blk)) 0); [done|].
    by rewrite (bind_Some _ _ _ _ _
                  (drop_block_nonzero E b blk s Hb ltac:(unfold is_uint32; lia) Hnzc)).
Qed.

End DropN.

Lemma drop_blockn_unique_witness :
  ∃ s',
    drop_blockn test_externals 16 2 (state_parent_child 0 1) = Some (tt, s')
    ∧ heap s' = {[ 32 := block_child 0 ]}
    ∧ heap s' !! 16 = None
    ∧ calls s' = [EvDropBox (box_enum 7); EvDropBox 32].
Proof.
  destruct (drop_blockn_unique test_externals 16 (block_2 0) 2
              (state_parent_child 0 1)) as (s' & Hrun & Hh & Hb & Hc).
  - reflexivity.
  - reflexivity.
  - reflexivity.
  - reflexivity.
  - simpl. lia.
  - apply parent_child_run.
  - exists s'. split; [exact Hrun|]. split; [|split; [exact Hb|exact Hc]].
    rewrite Hh. vm_compute. reflexivity.
Defined.

Lemma drop_blockn_top_bit_delegates_witness :
  drop_blockn test_externals 16 1 (state_of 16 (block_ts 0x80000001))
  = Some (tt, {| heap := {[ 16 := block_ts 0x80000000 ]};
                 calls := [EvBlockCheckFree 16 0x80000001] |})
  ∧ drop_reuse_blockn test_externals 16 1 (state_of 16 (block_ts 0x80000001))
    = Some (reuse_null, {| heap := {[ 16 := block_ts 0x80000000 ]};
                           calls := [EvBlockCheckFree 16 0x80000001] |}).
Proof.
  destruct (drop_blockn_top_bit_delegates test_externals 16
              (block_ts 0x80000001) 1 (state_of 16 (block_ts 0x80000001)))
    as [H1 H2].
  - reflexivity.
  - unfold is_uint32. simpl. lia.
  - simpl. lia.
  - rewrite H1, H2. split; vm_compute; reflexivity.
Defined.

Lemma drop_reuse_blockx_delegates_witness :
  drop_reuse_blockx test_externals 16 (state_of 16 (block_2 0))
  = Some (reuse_null, {| heap := {[ 16 := block_2 0 ]};
                         calls := [EvBlockCheckReuse 16 0] |}).
Proof.
  rewrite (drop_reuse_blockx_delegates test_externals 16 (block_2 0)).
  - reflexivity.
  - reflexivity.
  - unfold is_uint32. simpl. lia.
  - by left.
Defined.

Lemma drop_reuse_t_cases_witness :
  drop_reuse_t 16 (state_of 16 (block_2 0))
  = Some (tt, {| heap := ∅; calls := [] |})
  ∧ drop_reuse_t 16 (state_of 16 (block_2 1)) = None.
Proof.
  split.
  - destruct (drop_reuse_t_cases 16 (block_2 0) (state_of 16 (block_2 0)))
      as [_ ->]; [done|reflexivity|].
    vm_compute. reflexivity.
  - destruct (drop_reuse_t_cases 16 (block_2 1) (state_of 16 (block_2 1)))
      as [_ ->]; [done|reflexivity|].
    reflexivity.
Defined.

Lemma drop_reuse_then_release_is_drop_witness :
  ∃ s',
    drop_blockn test_externals 16 2 (state_parent_child 0 1) = Some (tt, s')
    ∧ (drop_reuse_blockn test_externals 16 2 ≫= drop_reuse_t)
        (state_parent_child 0 1) = Some (tt, s').
Proof.
  apply (drop_reuse_then_release_is_drop test_externals 16 (block_2 0) 2
           (state_parent_child 0 1)).
  - reflexivity.
  - reflexivity.
  - unfold is_uint32. simpl. lia.
  - intros _. split; [reflexivity|]. split; [simpl; lia|].
    apply parent_child_run.
Defined.

Lemma drop_reuse_block_agrees_with_blockn_witness :
  drop_reuse_block test_externals 16 (state_parent_child 0 1)
  = drop_reuse_blockn test_externals 16 2 (state_parent_child 0 1)
  ∧ is_Some (drop_reuse_blockn test_externals 16 2 (state_parent_child 0 1)).
Proof.
  split.
  - apply (drop_reuse_block_agrees_with_blockn test_externals 16 (block_2 0)).
    + reflexivity.
    + unfold is_uint32. simpl. lia.
    + vm_compute. discriminate.
    + reflexivity.
  - vm_compute. eexists. reflexivity.
Defined.

(** ** Datatypes: singletons and pointers *)

(** X14.  A singleton owns nothing: for every tag value [t], duplicating,
    dropping, dropping for reuse, freeing and decrementing
    [datatype_from_tag t] leave the state as it is and call nothing,
    [drop_reuse_datatype] returns [reuse_null], and [datatype_is_unique]
    answers false without reading the heap. *)
Theorem datatype_singleton_owns_nothing (E : externals) (t n : Z) (s : state) :
  dup_datatype E (datatype_from_tag t) s = Some (datatype_from_tag t, s)
  ∧ drop_datatype E (datatype_from_tag t) s = Some (tt, s)
  ∧ drop_reuse_datatype E (datatype_from_tag t) n s = Some (reuse_null, s)
  ∧ datatype_free (datatype_from_tag t) s = Some (tt, s)
  ∧ datatype_decref E (datatype_from_tag t) s = Some (tt, s)
  ∧ datatype_is_unique (datatype_from_tag t) s = Some (false, s).
Proof.
  destruct (datatype_from_tag_is_singleton t) as [Hptr Hsing].
  unfold dup_datatype, drop_datatype, drop_reuse_datatype, datatype_free,
    datatype_decref, datatype_is_unique.
  by rewrite Hptr, Hsing.
Qed.

(** X15.  Every word is a pointer or a singleton and never both:
    [datatype_is_singleton] is the negation of [datatype_is_ptr]. *)
Theorem datatype_ptr_or_singleton (d : Z) :
  datatype_is_singleton d = negb (datatype_is_ptr d).
Proof.
  unfold datatype_is_singleton, datatype_is_ptr. rewrite land_1_mod.
  destruct (Z.eqb_spec (d mod 2) 1), (Z.eqb_spec (d mod 2) 0);
    try done; Z.div_mod_to_equations; lia.
Qed.

(** X16.  A datatype made from an even address [p] of a live block is a
    pointer: [datatype_as_ptr] gives [p] back, [datatype_has_tag] compares
    the tag of the block, [datatype_is_unique] tests its count, and
    [dup_datatype] and [drop_datatype] are [dup_block] and [drop_block] on
    the block, [dup_datatype] returning the datatype. *)
Theorem datatype_pointer_forwards (E : externals) (p t : Z) (blk : block_t)
    (s : state) :
  p mod 2 = 0 →
  heap s !! p = Some blk →
  datatype_is_ptr (datatype_from_ptr p) = true
  ∧ datatype_as_ptr (datatype_from_ptr p) s = Some (p, s)
  ∧ datatype_has_tag (datatype_from_ptr p) t s
    = Some (tag (header blk) =? t, s)
  ∧ datatype_is_unique (datatype_from_ptr p) s
    = Some (refcount (header blk) =? 0, s)
  ∧ dup_datatype E (datatype_from_ptr p) s
    = (dup_block E p ≫= λ _, mret (datatype_from_ptr p)) s
  ∧ drop_datatype E (datatype_from_ptr p) s = drop_block E p s.
Proof.
  intros Heven Hb.
  assert (datatype_is_ptr (datatype_from_ptr p) = true) as Hptr.
  { unfold datatype_is_ptr, datatype_from_ptr. by rewrite land_1_mod, Heven. }
  unfold datatype_as_ptr, datatype_has_tag, datatype_is_unique, dup_datatype,
    drop_datatype.
  rewrite Hptr. unfold datatype_from_ptr, block_tag, block_is_unique.
  repeat split; try done.
  - by rewrite (bind_Some _ _ _ s (tag (header blk)));
      [|rewrite (bind_Some _ _ _ _ _ (load_block_Some _ _ _ Hb))].
  - by rewrite (bind_Some _ _ _ _ _ (load_block_Some _ _ _ Hb)).
Qed.

Lemma datatype_pointer_forwards_witness :
  datatype_has_tag (datatype_from_ptr 16) 500 (state_of 16 (block_2 0))
  = Some (true, state_of 16 (block_2 0))
  ∧ datatype_is_unique (datatype_from_ptr 16) (state_of 16 (block_2 0))
    = Some (true, state_of 16 (block_2 0))
  ∧ dup_datatype test_externals (datatype_from_ptr 16) (state_of 16 (block_2 0))
    = Some (16, state_of 16 (block_2 1)).
Proof.
  destruct (datatype_pointer_forwards test_externals 16 500 (block_2 0)
              (state_of 16 (block_2 0)))
    as (_ & _ & Htag & Huniq & Hdup & _).
  - reflexivity.
  - reflexivity.
  - rewrite Htag, Huniq, Hdup.
    split; [reflexivity|]. split; [reflexivity|]. vm_compute. reflexivity.
Defined.

(** ** Reference cells *)

Section Refs.
Variable E : externals.
Variable ARCH_LITTLE_ENDIAN : bool.

(** X17.  [ref_alloc(value)] makes one call of the small allocator, for
    [sizeof(struct ref_s)] bytes, and returns the block it got as a
    reference cell: tag [TAG_REF], scan size 1, count 0, not thread-shared,
    its one field holding [value]; no other block changes. *)
Theorem ref_alloc_cell (value : Z) (s : state) :
  let r := ext_malloc E sizeof_ref_s (heap s) in
  ∃ s',
    ref_alloc E ARCH_LITTLE_ENDIAN value s = Some (r, s')
    ∧ heap s' !! r = Some (block_ref 0 value)
    ∧ calls s' = calls s ++ [EvMallocSmall sizeof_ref_s r]
    ∧ (∀ q, q ≠ r → heap s' !! q = heap s !! q)
    ∧ block_scan_fsize r s' = Some (1, s').
Proof.
  intros r.
  assert (is_tag TAG_REF) as Htag.
  { unfold is_tag, TAG_INVALID, TAG_REF, TAG_LAST. lia. }
  destruct (block_alloc_run E ARCH_LITTLE_ENDIAN sizeof_ref_s 1 TAG_REF s)
    as [_ Halloc]; [unfold SCAN_FSIZE_MAX; lia|done|].
  fold r in Halloc.
  set (s1 := {| heap := <[r := Block (Header 1 0 TAG_REF 0)
                                     (fields (fresh_block E sizeof_ref_s))]> (heap s);
                calls := calls s ++ [EvMallocSmall sizeof_ref_s r] |}) in *.
  assert (store_field r 0 value s1
          = Some (tt, {| heap := <[r := block_ref 0 value]> (heap s);
                         calls := calls s ++ [EvMallocSmall sizeof_ref_s r] |}))
    as Hstore.
  { rewrite (store_field_Some r 0 value
               (Block (Header 1 0 TAG_REF 0) (fields (fresh_block E sizeof_ref_s)))).
    - subst s1. simpl. by rewrite insert_insert_eq.
    - apply lookup_insert_eq.
    - simpl. lia. }
  eexists. split; [|split; [|split; [|split]]].
  - unfold ref_alloc. rewrite (bind_Some _ _ _ _ _ Halloc).
    by rewrite (bind_Some _ _ _ _ _ Hstore).
  - apply lookup_insert_eq.
  - done.
  - intros q Hq. simpl. by apply lookup_insert_ne.
  - unfold block_scan_fsize.
    rewrite (bind_Some _ _ _ _ _
               (load_block_Some r (block_ref 0 value) _ (lookup_insert_eq _ _ _))).
    done.
Qed.

(** X18.  [ref_swap] on a cell returns the value the cell held and leaves
    the new one in it, with the header, every other field, every other
    block and the trace untouched; swapping the old value back restores
    the state. *)
Theorem ref_swap_exchanges (r v v0 : Z) (hd : header_t) (rest : list Z)
    (s : state) :
  heap s !! r = Some (Block hd (v0 :: rest)) →
  ref_swap r v s
  = Some (v0, {| heap := <[r := Block hd (v :: rest)]> (heap s);
                 calls := calls s |})
  ∧ (old ← ref_swap r v; ref_swap r old) s = Some (v, s).
Proof.
  intros Hb.
  assert (∀ x y (s0 : state),
            heap s0 !! r = Some (Block hd (x :: rest)) →
            ref_swap r y s0
            = Some (x, {| heap := <[r := Block hd (y :: rest)]> (heap s0);
                          calls := calls s0 |})) as Hswap.
  { intros x y s0 H0. unfold ref_swap.
    rewrite (bind_Some _ _ _ _ _ (block_field_Some r 0 x _ s0 H0 eq_refl)).
    rewrite (bind_Some _ _ _ _ _
               (store_field_Some r 0 y _ s0 H0 ltac:(simpl; lia))).
    done. }
  split; [by apply Hswap|].
  rewrite (bind_Some _ _ _ _ _ (Hswap v0 v s Hb)).
  rewrite (Hswap v v0); [|apply lookup_insert_eq].
  simpl. rewrite insert_insert_eq, (insert_id _ _ _ Hb). by destruct s.
Qed.

(** X19.  [ref_set] gives up the value the cell held, by one call of
    [drop_box_t] on it, and then stores the new value: when that drop
    leaves the cell itself alone, the cell holds the new value afterwards
    and its header is unchanged. *)
Theorem ref_set_drops_old (r v v0 : Z) (hd : header_t) (rest : list Z)
    (s : state) :
  heap s !! r = Some (Block hd (v0 :: rest)) →
  ext_drop_box_t E v0 (heap s) !! r = Some (Block hd (v0 :: rest)) →
  ref_set E r v s
  = Some (Unit, {| heap := <[r := Block hd (v :: rest)]>
                             (ext_drop_box_t E v0 (heap s));
                   calls := calls s ++ [EvDropBox v0] |}).
Proof.
  intros Hb Hframe. unfold ref_set.
  rewrite (bind_Some _ _ _ _ _ (block_field_Some r 0 v0 _ s Hb eq_refl)).
  rewrite (bind_Some _ _ _ _ _ (drop_box_t_run E v0 s)).
  rewrite (bind_Some _ _ _ _ _
             (store_field_Some r 0 v (Block hd (v0 :: rest))
                {| heap := ext_drop_box_t E v0 (heap s);
                   calls := calls s ++ [EvDropBox v0] |} Hframe
                ltac:(simpl; lia))).
  done.
Qed.

End Refs.

Lemma ref_swap_exchanges_witness :
  ref_swap 16 (box_enum 9) (state_of 16 (block_ref 0 (box_enum 7)))
  = Some (box_enum 7, state_of 16 (block_ref 0 (box_enum 9)))
  ∧ (old ← ref_swap 16 (box_enum 9); ref_swap 16 old)
      (state_of 16 (block_ref 0 (box_enum 7)))
    = Some (box_enum 9, state_of 16 (block_ref 0 (box_enum 7))).
Proof.
  destruct (ref_swap_exchanges 16 (box_enum 9) (box_enum 7)
              (Header 1 0 TAG_REF 0) [] (state_of 16 (block_ref 0 (box_enum 7))))
    as [H1 H2].
  - reflexivity.
  - rewrite H1, H2. split; [vm_compute; reflexivity|done].
Defined.

Lemma ref_set_drops_old_witness :
  ref_set test_externals 16 (box_enum 9)
    {| heap := <[ 16 := block_ref 0 32 ]> {[ 32 := block_child 1 ]};
       calls := [] |}
  = Some (Unit,
          {| heap := <[ 16 := block_ref 0 (box_enum 9) ]> {[ 32 := block_child 0 ]};
             calls := [EvDropBox 32] |}).
Proof.
  rewrite (ref_set_drops_old test_externals 16 (box_enum 9) 32
             (Header 1 0 TAG_REF 0) []).
  - vm_compute. reflexivity.
  - reflexivity.
  - reflexivity.
Defined.

(** ** Allocation: scan sizes, frames, and the two ways to store a header *)

Lemma block_scan_fsize_small (b : Z) (blk : block_t) (s : state) :
  heap s !! b = Some blk →
  scan_fsize (header blk) ≠ SCAN_FSIZE_MAX →
  block_scan_fsize b s = Some (scan_fsize (header blk), s).
Proof.
  intros Hb Hne. unfold block_scan_fsize.
  rewrite (bind_Some _ _ _ _ _ (load_block_Some _ _ _ Hb)).
  by destruct (Z.eqb_spec (scan_fsize (header blk)) SCAN_FSIZE_MAX).
Qed.

Section AllocationMore.
Variable E : externals.
Variable ARCH_LITTLE_ENDIAN : bool.

(** X20.  The scan size given to an allocation is the one read back: for
    [0 <= sf < SCAN_FSIZE_MAX], [block_scan_fsize] on the block returned
    by [block_alloc], [block_alloc_any] and [block_alloc_at] without
    storage answers [sf]. *)
Theorem alloc_scan_fsize_round_trip (size sf t : Z) (s : state) :
  0 ≤ sf < SCAN_FSIZE_MAX →
  is_tag t →
  (∃ b s', block_alloc E ARCH_LITTLE_ENDIAN size sf t s = Some (b, s')
           ∧ block_scan_fsize b s' = Some (sf, s'))
  ∧ (∃ b s', block_alloc_any E ARCH_LITTLE_ENDIAN size sf t s = Some (b, s')
             ∧ block_scan_fsize b s' = Some (sf, s'))
  ∧ (∃ b s', block_alloc_at E ARCH_LITTLE_ENDIAN reuse_null size sf t s
             = Some (b, s')
             ∧ block_scan_fsize b s' = Some (sf, s')).
Proof.
  intros Hsf Ht.
  destruct (block_alloc_run E ARCH_LITTLE_ENDIAN size sf t s Hsf Ht) as [H1 H3].
  pose proof (block_alloc_any_run E ARCH_LITTLE_ENDIAN size sf t s Hsf Ht) as H2.
  assert (∀ fs h c,
            block_scan_fsize (ext_malloc E size (heap s))
              {| heap := <[ext_malloc E size (heap s) := Block (Header sf 0 t 0) fs]> h;
                 calls := c |}
            = Some (sf, {| heap := <[ext_malloc E size (heap s)
                                     := Block (Header sf 0 t 0) fs]> h;
                           calls := c |})) as Hscan.
  { intros fs h c.
    rewrite (block_scan_fsize_small _ (Block (Header sf 0 t 0) fs));
      [done|apply lookup_insert_eq|simpl; lia]. }
  split; [|split]; eexists _, _; (split; [eassumption|apply Hscan]).
Qed.

(** X21.  A large block keeps its scan size too: when the request has
    room for the large header and [0 <= sf <= MAX_BOXED_ENUM],
    [block_scan_fsize] on the block returned by [block_large_alloc]
    answers [sf], read from the boxed first field since the inline scan
    size is the sentinel. *)
Theorem large_alloc_scan_fsize_round_trip (size sf t : Z) (s : state) :
  sizeof_block_large_t ≤ size_t (size + 1) →
  0 ≤ sf ≤ MAX_BOXED_ENUM →
  is_tag t →
  ∃ b s' blk,
    block_large_alloc E size sf t s = Some (b, s')
    ∧ heap s' !! b = Some blk
    ∧ scan_fsize (header blk) = SCAN_FSIZE_MAX
    ∧ block_scan_fsize b s' = Some (sf, s').
Proof.
  intros Hroom Hsf Ht.
  pose proof (block_large_alloc_run E size sf t s Hroom Ht) as Hrun.
  cbv zeta in Hrun.
  set (p := ext_malloc E (size_t (size + 1)) (heap s)) in *.
  set (blk := Block (Header SCAN_FSIZE_MAX 0 t 0)
                (<[0%nat := box_enum sf]>
                   (fields (fresh_block E (size_t (size + 1)))))) in *.
  set (s' := {| heap := <[p := blk]> (heap s);
                calls := calls s ++ [EvMalloc (size_t (size + 1)) p] |}) in *.
  assert (heap s' !! p = Some blk) as Hb by apply lookup_insert_eq.
  assert (fields blk !! 0%nat = Some (box_enum sf)) as Hx.
  { subst blk. cbn [fields]. apply list_lookup_insert_eq.
    rewrite fresh_block_length.
    unfold sizeof_block_large_t, sizeof_header_t, sizeof_box_t in *.
    assert (1 ≤ (size_t (size + 1) - 8) / 8); [|lia].
    apply Z.div_le_lower_bound; lia. }
  pose proof (block_scan_fsize_large p (box_enum sf) blk s' Hb eq_refl Hx)
    as Hscan.
  rewrite (unbox_box_enum sf Hsf) in Hscan.
  by exists p, s', blk.
Qed.

(** X22.  [block_alloc_at] on storage the caller holds uniquely works in
    place: it returns the storage, calls nothing (the allocator
    included), writes the new header with the requested scan size and
    tag, and leaves every word after the header and every other block as
    they were. *)
Theorem block_alloc_at_in_place (at_ size sf t : Z) (blk : block_t) (s : state) :
  at_ ≠ reuse_null →
  heap s !! at_ = Some blk →
  refcount (header blk) = 0 →
  0 ≤ sf < SCAN_FSIZE_MAX →
  is_tag t →
  ∃ s',
    block_alloc_at E ARCH_LITTLE_ENDIAN at_ size sf t s = Some (at_, s')
    ∧ heap s' !! at_ = Some (Block (Header sf 0 t 0) (fields blk))
    ∧ (∀ q, q ≠ at_ → heap s' !! q = heap s !! q)
    ∧ calls s' = calls s.
Proof.
  intros Hnn Hb Hrc Hsf Ht.
  eexists. split; [by eapply block_alloc_at_reuse_run|].
  simpl. split; [apply lookup_insert_eq|]. split; [|done].
  intros q Hq. by apply lookup_insert_ne.
Qed.

(** X23.  A fresh allocation makes one call of the allocator, for the
    size it was asked (the small allocator for [block_alloc], the general
    one for [block_alloc_any]), returns the address the allocator gave,
    leaves the words after the header as the allocator handed them out,
    and changes no other block. *)
Theorem block_alloc_one_call (size sf t : Z) (s : state) :
  0 ≤ sf < SCAN_FSIZE_MAX →
  is_tag t →
  let p := ext_malloc E size (heap s) in
  (∃ s', block_alloc E ARCH_LITTLE_ENDIAN size sf t s = Some (p, s')
         ∧ calls s' = calls s ++ [EvMallocSmall size p]
         ∧ fields <$> heap s' !! p = Some (fields (fresh_block E size))
         ∧ ∀ q, q ≠ p → heap s' !! q = heap s !! q)
  ∧ (∃ s', block_alloc_any E ARCH_LITTLE_ENDIAN size sf t s = Some (p, s')
           ∧ calls s' = calls s ++ [EvMalloc size p]
           ∧ fields <$> heap s' !! p = Some (fields (fresh_block E size))
           ∧ ∀ q, q ≠ p → heap s' !! q = heap s !! q).
Proof.
  intros Hsf Ht p.
  destruct (block_alloc_run E ARCH_LITTLE_ENDIAN size sf t s Hsf Ht) as [H1 _].
  pose proof (block_alloc_any_run E ARCH_LITTLE_ENDIAN size sf t s Hsf Ht) as H2.
  cbv zeta in H1, H2. fold p in H1, H2.
  split; eexists; (split; [eassumption|]); simpl;
    (split; [done|]); (split; [by rewrite lookup_insert_eq|]);
    intros q Hq; by apply lookup_insert_ne.
Qed.

End AllocationMore.

(** X24.  For a scan size and a tag within their contract, the two
    branches of [block_init] agree: the single 64-bit store of the
    little-endian branch leaves the same header as the field-wise
    assignment, and both fail in the same cases. *)
Theorem block_init_endian_agree (b size sf t : Z) (s : state) :
  0 ≤ sf →
  is_tag t →
  block_init true b size sf t s = block_init false b size sf t s.
Proof.
  intros Hsf Ht.
  destruct (Z.lt_ge_cases sf SCAN_FSIZE_MAX) as [Hlt|Hge].
  - destruct (heap s !! b) as [blk|] eqn:Hb.
    + by rewrite !(block_init_run _ b size sf t blk s Hb (conj Hsf Hlt) Ht).
    + unfold block_init.
      assert ((sf <? SCAN_FSIZE_MAX) = true) as -> by (apply Z.ltb_lt; lia).
      rewrite !(bind_Some _ _ _ s tt) by done.
      unfold store_header.
      rewrite !bind_None; [done| |]; unfold load_block; by rewrite Hb.
  - unfold block_init.
    by destruct (Z.ltb_spec sf SCAN_FSIZE_MAX); [lia|].
Qed.

Lemma block_init_endian_agree_witness :
  block_init true 16 24 2 500 (state_of 16 (block_2 7))
  = block_init false 16 24 2 500 (state_of 16 (block_2 7))
  ∧ block_init false 16 24 2 500 (state_of 16 (block_2 7))
    = Some (tt, state_of 16 (block_2 0)).
Proof.
  split.
  - apply block_init_endian_agree.
    + lia.
    + unfold is_tag, TAG_INVALID, TAG_LAST. lia.
  - vm_compute. reflexivity.
Defined.

Lemma alloc_scan_fsize_round_trip_witness :
  ∃ b s', block_alloc test_externals true 24 2 500 (state_of 16 (block_2 0))
          = Some (b, s')
          ∧ block_scan_fsize b s' = Some (2, s').
Proof.
  destruct (alloc_scan_fsize_round_trip test_externals true 24 2 500
              (state_of 16 (block_2 0))) as [H _].
  - unfold SCAN_FSIZE_MAX. lia.
  - unfold is_tag, TAG_INVALID, TAG_LAST. lia.
  - exact H.
Defined.

Lemma large_alloc_scan_fsize_round_trip_witness :
  ∃ b s', block_large_alloc test_externals 40 300 TAG_VECTOR
            (state_of 16 (block_2 0)) = Some (b, s')
          ∧ block_scan_fsize b s' = Some (300, s').
Proof.
  destruct (large_alloc_scan_fsize_round_trip test_externals 40 300 TAG_VECTOR
              (state_of 16 (block_2 0))) as (b & s' & blk & Hrun & _ & _ & Hscan).
  - vm_compute. discriminate.
  - unfold MAX_BOXED_ENUM. lia.
  - unfold is_tag, TAG_INVALID, TAG_VECTOR, TAG_LAST. lia.
  - by exists b, s'.
Defined.

Lemma block_alloc_at_in_place_witness :
  block_alloc_at test_externals true 16 24 1 TAG_REF (state_of 16 (block_2 0))
  = Some (16, state_of 16 (Block (Header 1 0 TAG_REF 0) [box_enum 7; 32])).
Proof.
  destruct (block_alloc_at_in_place test_externals true 16 24 1 TAG_REF
              (block_2 0) (state_of 16 (block_2 0))) as (s' & Hrun & _).
  - done.
  - reflexivity.
  - reflexivity.
  - unfold SCAN_FSIZE_MAX. lia.
  - unfold is_tag, TAG_INVALID, TAG_REF, TAG_LAST. lia.
  - rewrite Hrun. vm_compute in Hrun. by inversion Hrun.
Defined.

Lemma block_alloc_one_call_witness :
  ∃ s', block_alloc test_externals true 24 2 500 (state_of 16 (block_2 0))
        = Some (24, s')
        ∧ calls s' = [EvMallocSmall 24 24].
Proof.
  destruct (block_alloc_one_call test_externals true 24 2 500
              (state_of 16 (block_2 0))) as [(s' & Hrun & Hc & _) _].
  - unfold SCAN_FSIZE_MAX. lia.
  - unfold is_tag, TAG_INVALID, TAG_LAST. lia.
  - exists s'. split; [exact Hrun|exact Hc].
Defined.

(** ** The elements of a new vector *)

(** The loop of [vector_alloc] again, with the fields it leaves: [def] in
    the fields [i+1], ..., [i+k], the others as they were. *)
Lemma store_fields_fill (v def : Z) (k : nat) :
  ∀ (i : Z) (blk : block_t) (s : state),
    heap s !! v = Some blk →
    0 ≤ i →
    (Z.to_nat i + k < length (fields blk))%nat →
    ∃ fs,
      for_loop k i (λ j, store_field v (j + 1) def) s
      = Some (tt, {| heap := <[v := Block (header blk) fs]> (heap s);
                     calls := calls s |})
      ∧ length fs = length (fields blk)
      ∧ ∀ j : nat,
          fs !! j = if decide (Z.to_nat i < j ≤ Z.to_nat i + k)%nat
                    then Some def else fields blk !! j.
Proof.
  induction k as [|k IH]; intros i blk s Hv Hi Hlen.
  - exists (fields blk). split; [|split; [done|]].
    + simpl. unfold mret, M_ret. do 2 f_equal. destruct s as [h c]. simpl in *.
      f_equal. symmetry. apply insert_id. by destruct blk.
    + intros j. case_decide; [lia|done].
  - cbn [for_loop].
    rewrite (bind_Some _ _ _ _ _ (store_field_Some v (i + 1) def blk s Hv ltac:(lia))).
    destruct (IH (i + 1) (with_field (Z.to_nat (i + 1)) def blk)
                {| heap := <[v := with_field (Z.to_nat (i + 1)) def blk]> (heap s);
                   calls := calls s |}) as (fs & Hrun & Hl & Hfs).
    + apply lookup_insert_eq.
    + lia.
    + simpl. rewrite length_insert. lia.
    + exists fs. split; [|split].
      * rewrite Hrun. simpl. by rewrite insert_insert_eq.
      * rewrite Hl. simpl. apply length_insert.
      * intros j. rewrite Hfs. simpl.
        replace (Z.to_nat (i + 1)) with (S (Z.to_nat i)) by lia.
        destruct (decide (j = S (Z.to_nat i))) as [->|Hne].
        -- rewrite list_lookup_insert_eq by lia.
           repeat case_decide; try done; lia.
        -- rewrite list_lookup_insert_ne by done.
           repeat case_decide; try done; lia.
Qed.

(** X25.  For a length [n > 0] whose byte size fits in a [size_t],
    [vector_alloc(n, def)] makes one call of the allocator and returns a
    block of exactly [n+1] words after the header: the boxed [n+1], then
    [n] elements, each equal to [def] -- or, when [def] is [box_null], left
    as the allocator handed them out.  Its tag is [TAG_VECTOR], its count
    0, and no other block changes. *)
Theorem vector_alloc_elements (E : externals) (vector_empty n def : Z)
    (s : state) :
  0 < n →
  sizeof_vector_large_s + (n - 1) * sizeof_box_t < 2 ^ 64 →
  let sz := sizeof_vector_large_s + (n - 1) * sizeof_box_t + 1 in
  let p := ext_malloc E sz (heap s) in
  ∃ s',
    vector_alloc E vector_empty n def s = Some (p, s')
    ∧ heap s' !! p
      = Some (Block (Header SCAN_FSIZE_MAX 0 TAG_VECTOR 0)
                (box_enum (n + 1)
                 :: replicate (Z.to_nat n)
                      (if def =? box_null then ext_uninit E else def)))
    ∧ calls s' = calls s ++ [EvMalloc sz p]
    ∧ ∀ q, q ≠ p → heap s' !! q = heap s !! q.
Proof.
  intros Hn Hsize sz p.
  unfold sizeof_vector_large_s, sizeof_box_t in Hsize, sz.
  assert (size_t (24 + size_t ((n - 1) * 8)) = 24 + (n - 1) * 8) as Hs1.
  { rewrite (size_t_small ((n - 1) * 8)) by lia. apply size_t_small. lia. }
  assert (size_t (24 + (n - 1) * 8 + 1) = sz) as Hs2.
  { apply size_t_small. subst sz. Z.div_mod_to_equations. lia. }
  assert (size_t (n + 1) = n + 1) as Hs3 by (apply size_t_small; lia).
  assert ((sz - sizeof_header_t) / sizeof_box_t = n + 1) as Hwords.
  { subst sz. unfold sizeof_header_t, sizeof_box_t.
    Z.div_mod_to_equations. lia. }
  assert (is_tag TAG_VECTOR) as Htag.
  { unfold is_tag, TAG_INVALID, TAG_VECTOR, TAG_LAST. lia. }
  assert (sizeof_block_large_t ≤ size_t (24 + (n - 1) * 8 + 1)) as Hroom.
  { rewrite Hs2. unfold sizeof_block_large_t. subst sz. lia. }
  pose proof (block_large_alloc_run E (24 + (n - 1) * 8) (n + 1) TAG_VECTOR s
                Hroom Htag) as Halloc.
  cbv zeta in Halloc. rewrite Hs2 in Halloc. fold p in Halloc.
  assert (<[0%nat := box_enum (n + 1)]> (fields (fresh_block E sz))
          = box_enum (n + 1) :: replicate (Z.to_nat n) (ext_uninit E)) as Hfs0.
  { unfold fresh_block. cbn [fields]. rewrite Hwords.
    replace (Z.to_nat (n + 1)) with (S (Z.to_nat n)) by lia. done. }
  rewrite Hfs0 in Halloc.
  set (fs0 := box_enum (n + 1) :: replicate (Z.to_nat n) (ext_uninit E)) in *.
  set (s1 := {| heap := <[p := Block (Header SCAN_FSIZE_MAX 0 TAG_VECTOR 0) fs0]>
                          (heap s);
                calls := calls s ++ [EvMalloc sz p] |}) in *.
  unfold vector_alloc.
  destruct (Z.eqb_spec n 0); [lia|].
  unfold sizeof_vector_large_s, sizeof_box_t. rewrite Hs1, Hs3.
  rewrite (bind_Some _ _ _ _ _ Halloc).
  destruct (def =? box_null); cbv beta iota delta [negb].
  - exists s1. split; [by rewrite (bind_Some _ _ _ _ tt eq_refl)|].
    split; [apply lookup_insert_eq|]. split; [done|].
    intros q Hq. by apply lookup_insert_ne.
  - destruct (store_fields_fill p def (Z.to_nat n) 0
                (Block (Header SCAN_FSIZE_MAX 0 TAG_VECTOR 0) fs0) s1)
      as (fs & Hrun & Hl & Hfs).
    + apply lookup_insert_eq.
    + lia.
    + subst fs0. simpl. rewrite length_replicate. lia.
    + assert (fs = box_enum (n + 1) :: replicate (Z.to_nat n) def) as ->.
      { apply list_eq. intros j. rewrite Hfs. cbn [fields].
        change (Z.to_nat 0) with 0%nat.
        destruct j as [|j]; [by case_decide; [lia|]|].
        subst fs0. cbn [lookup list_lookup].
        case_decide as Hj.
        - symmetry. apply (lookup_replicate_2 (Z.to_nat n) def j). lia.
        - transitivity (@None Z).
          + apply (proj1 (lookup_replicate_None (Z.to_nat n) (ext_uninit E) j)).
            lia.
          + symmetry.
            apply (proj1 (lookup_replicate_None (Z.to_nat n) def j)). lia. }
      eexists. split.
      * unfold for_upto. rewrite (bind_Some _ _ _ _ _ Hrun). reflexivity.
      * subst s1. simpl. rewrite insert_insert_eq.
        split; [apply lookup_insert_eq|]. split; [done|].
        intros q Hq. by apply lookup_insert_ne.
Qed.

Lemma vector_alloc_elements_witness :
  ∃ s',
    vector_alloc test_externals 8 3 (box_enum 7) (state_of 8 block_vector_empty)
    = Some (16, s')
    ∧ heap s' !! 16
      = Some (Block (Header SCAN_FSIZE_MAX 0 TAG_VECTOR 0)
                [box_enum 4; box_enum 7; box_enum 7; box_enum 7])
    ∧ calls s' = [EvMalloc 41 16].
Proof.
  destruct (vector_alloc_elements test_externals 8 3 (box_enum 7)
              (state_of 8 block_vector_empty)) as (s' & Hrun & Hb & Hc & _).
  - lia.
  - vm_compute. reflexivity.
  - exists s'. split; [exact Hrun|]. split; [exact Hb|exact Hc].
Defined.

(** ** Markers are handed out in order *)

(** X26.  While the counter stays below [INT32_MAX], successive calls of
    [marker_unique] return consecutive values: from a stored counter [c >= 0]
    with [c + n < INT32_MAX], [n] calls return [c+1], ..., [c+n], so no
    marker is handed out twice. *)
Theorem markers_consecutive (n : nat) :
  ∀ ctx,
    0 ≤ ctx_marker_unique ctx →
    ctx_marker_unique ctx + Z.of_nat n < INT32_MAX →
    markers n ctx
    = map (λ i : nat, ctx_marker_unique ctx + 1 + Z.of_nat i) (seq 0 n)
    ∧ NoDup (markers n ctx).
Proof.
  assert (∀ k ctx, 0 ≤ ctx_marker_unique ctx →
                   ctx_marker_unique ctx + Z.of_nat k < INT32_MAX →
                   markers k ctx
                   = map (λ i : nat, ctx_marker_unique ctx + 1 + Z.of_nat i)
                         (seq 0 k)) as Hseq.
  { induction k as [|k IH]; intros ctx H0 Hk; [done|].
    cbn [markers].
    destruct (marker_unique_step ctx) as [H1 H2]; [lia|].
    destruct (marker_unique ctx) as [m ctx'] eqn:Hm. simpl in H1, H2.
    destruct (Z.eqb_spec (ctx_marker_unique ctx + 1) INT32_MAX); [lia|].
    rewrite IH by lia.
    cbn [seq map]. rewrite H1, Z.add_0_r. f_equal.
    rewrite <- seq_shift, map_map.
    apply map_ext. intros i. rewrite H2. lia. }
  intros ctx H0 Hn. split; [by apply Hseq|].
  rewrite Hseq by done.
  apply NoDup_fmap_2; [|apply NoDup_seq].
  intros i j Hij. lia.
Qed.

Lemma markers_consecutive_witness :
  markers 4 (Context 0 10 1) = [11; 12; 13; 14]
  ∧ NoDup (markers 4 (Context 0 10 1)).
Proof.
  destruct (markers_consecutive 4 (Context 0 10 1)) as [H1 H2].
  - simpl. lia.
  - simpl. unfold INT32_MAX. lia.
  - split; [by rewrite H1|exact H2].
Defined.
